(** * dvc.api.experiments: checkpoint signalling, experiment saving and
      normalisation of experiment tables

    A shallow embedding of [dvc/api/experiments.py]:
    - [make_checkpoint] runs in a small state/error/trace monad over a
      [World] holding the process environment, the file system shared with
      the supervising DVC process, and a logical clock;
    - [exp_save] runs over a repository store with an open/close life cycle;
    - [_postprocess] mutates the row dictionaries of a table in place, so
      rows are references into a heap of dictionaries. *)

From Stdlib Require Import ZArith NArith String Ascii List Lia SpecFloat.
From stdpp Require Import gmap strings list fin_maps.

Local Open Scope string_scope.
Local Open Scope list_scope.

(** ** Names imported by the module

    [DVC_CHECKPOINT] and [DVC_ROOT] come from [dvc.env], [DVC_DIR] is
    [Repo.DVC_DIR] and [SIGNAL_FILE] is [CheckpointTask.SIGNAL_FILE]. Their
    defining modules are not part of the verified file, so they are
    parameters of the development. *)
Class Imports := {
  DVC_CHECKPOINT : string;
  DVC_ROOT : string;
  DVC_DIR : string;
  SIGNAL_FILE : string
}.

(** The values these names have in the dvc package, used for the concrete
    runs below. *)
Definition dvc_imports : Imports := {|
  DVC_CHECKPOINT := "DVC_CHECKPOINT";
  DVC_ROOT := "DVC_ROOT";
  DVC_DIR := ".dvc";
  SIGNAL_FILE := "DVC_CHECKPOINT"
|}.

(** ** [os.path.join] (posixpath) *)
Module Posix.

Definition startswith (pre s : string) : bool := String.prefix pre s.

Fixpoint endswith_sep (s : string) : bool :=
  match s with
  | EmptyString => false
  | String c EmptyString => Ascii.eqb c "/"%char
  | String _ rest => endswith_sep rest
  end.

(** One iteration of the loop [for b in p] of [posixpath.join]. *)
Definition join_step (path b : string) : string :=
  if startswith "/" b then b
  else if String.eqb path "" || endswith_sep path then path +:+ b
  else path +:+ "/" +:+ b.

Definition join (a : string) (p : list string) : string :=
  foldl join_step a p.

End Posix.

(** ** The world [make_checkpoint] runs in *)
Module Checkpoint.

Inductive error :=
| RepositoryNotFoundError
| IOError.

(** File operations that can fail with an [OSError]. *)
Inductive io_op := OpOpen | OpWrite | OpFlush | OpFsync.

Global Instance io_op_eq_dec : EqDecision io_op.
Proof. solve_decision. Defined.

(** Effects visible outside the process, in program order. *)
Inductive event :=
| EFindRoot
| EOpen (path : string)
| EWrite (path data : string)
| EFlush (path : string)
| EFsync (path : string)
| EClose (path : string)
| EExists (path : string) (found : bool)
| ESleep (ms : N).

Record World := mkWorld {
  (** [os.environ] *)
  environ : gmap string string;
  (** what [Repo.find_root()] finds walking up from the working
      directory; [None] when no directory on the way holds the marker
      directory and the search raises *)
  found_root : option string;
  (** contents of the files, as every process sees them *)
  files : gmap string string;
  (** contents forced to durable storage by [fsync] *)
  disk : gmap string string;
  (** user-space buffers of the file objects open for writing *)
  buffers : gmap string string;
  (** the file operation at which the file system fails, if any *)
  io_fault : option io_op;
  (** logical time in milliseconds *)
  clock : N;
  (** deletions the supervising process performs, with their times *)
  supervisor : list (N * string)
}.

Definition set_environ (e : gmap string string) (w : World) : World :=
  mkWorld e (found_root w) (files w) (disk w) (buffers w) (io_fault w)
          (clock w) (supervisor w).

Definition set_files (f : gmap string string) (w : World) : World :=
  mkWorld (environ w) (found_root w) f (disk w) (buffers w) (io_fault w)
          (clock w) (supervisor w).

Definition set_disk (d : gmap string string) (w : World) : World :=
  mkWorld (environ w) (found_root w) (files w) d (buffers w) (io_fault w)
          (clock w) (supervisor w).

Definition set_buffers (b : gmap string string) (w : World) : World :=
  mkWorld (environ w) (found_root w) (files w) (disk w) b (io_fault w)
          (clock w) (supervisor w).

Definition set_clock (t : N) (w : World) : World :=
  mkWorld (environ w) (found_root w) (files w) (disk w) (buffers w)
          (io_fault w) t (supervisor w).

(** *** The monad: state, exceptions, a trace, and running out of fuel *)

Inductive outcome (A : Type) :=
| Returned (a : A)
| Raised (e : error)
| Blocked.
Global Arguments Returned {A} a.
Global Arguments Raised {A} e.
Global Arguments Blocked {A}.

Definition M (A : Type) : Type := World -> outcome A * World * list event.

Definition ret {A} (a : A) : M A := fun w => (Returned a, w, []).

Definition raise {A} (e : error) : M A := fun w => (Raised e, w, []).

Definition blocked {A} : M A := fun w => (Blocked, w, []).

Definition bind {A B} (m : M A) (k : A -> M B) : M B := fun w =>
  match m w with
  | (Returned a, w1, t1) =>
      let '(o, w2, t2) := k a w1 in (o, w2, t1 ++ t2)
  | (Raised e, w1, t1) => (Raised e, w1, t1)
  | (Blocked, w1, t1) => (Blocked, w1, t1)
  end.

(** [try: m finally: c]. The clean-up runs on return and on exception; an
    exception of the clean-up replaces the pending one. *)
Definition finally {A} (m : M A) (c : M unit) : M A := fun w =>
  match m w with
  | (Blocked, w1, t1) => (Blocked, w1, t1)
  | (o, w1, t1) =>
      match c w1 with
      | (Returned _, w2, t2) => (o, w2, t1 ++ t2)
      | (Raised e, w2, t2) => (Raised e, w2, t1 ++ t2)
      | (Blocked, w2, t2) => (Blocked, w2, t1 ++ t2)
      end
  end.

Definition emit (e : event) : M unit := fun w => (Returned tt, w, [e]).

Definition get_world : M World := fun w => (Returned w, w, []).

Definition modify (f : World -> World) : M unit :=
  fun w => (Returned tt, f w, []).

Declare Scope checkpoint_scope.
Delimit Scope checkpoint_scope with ckpt.
Notation "x <- m ;; k" := (bind m (fun x => k))
  (at level 100, m at next level, right associativity) : checkpoint_scope.
Notation "m ;;; k" := (bind m (fun _ => k))
  (at level 100, right associativity) : checkpoint_scope.
Local Open Scope checkpoint_scope.

(** *** Primitive operations *)

(** [os.getenv(name)] *)
Definition getenv (name : string) : M (option string) :=
  w <- get_world ;; ret (environ w !! name).

(** [os.getenv(name, default)], called with an evaluated [default]. *)
Definition getenv_default (name dflt : string) : M string :=
  w <- get_world ;; ret (default dflt (environ w !! name)).

(** [Repo.find_root()] *)
Definition find_root : M string :=
  emit EFindRoot ;;;
  w <- get_world ;;
  match found_root w with
  | Some root => ret root
  | None => raise RepositoryNotFoundError
  end.

Definition io_check (op : io_op) : M unit :=
  w <- get_world ;;
  if decide (io_fault w = Some op) then raise IOError else ret tt.

(** A file object opened for writing, identified by its path. *)
Record file := mkFile { fpath : string }.

(** The file at [path] is created or emptied, with an empty buffer. *)
Definition truncate (path : string) (w : World) : World :=
  set_buffers (<[path := ""]> (buffers w))
    (set_files (<[path := ""]> (files w)) w).

(** [data] joins the buffer of the file object. *)
Definition buffer (path data : string) (w : World) : World :=
  set_buffers (alter (fun b => b +:+ data) path (buffers w)) w.

(** The buffer is handed to the operating system. *)
Definition drain (path : string) (w : World) : World :=
  set_buffers (alter (fun _ => "") path (buffers w))
    (set_files
       match buffers w !! path with
       | Some b => alter (fun c => c +:+ b) path (files w)
       | None => files w
       end w).

(** What the operating system holds for the file reaches the disk. *)
Definition sync (path : string) (w : World) : World :=
  set_disk
    match files w !! path with
    | Some c => <[path := c]> (disk w)
    | None => disk w
    end w.

(** The file object is closed: its buffer is drained and dropped. *)
Definition release (path : string) (w : World) : World :=
  let w' := drain path w in set_buffers (delete path (buffers w')) w'.

(** [builtins.open(path, "w", encoding="utf-8")]: creates or truncates. *)
Definition open_w (path : string) : M file :=
  emit (EOpen path) ;;;
  io_check OpOpen ;;;
  modify (truncate path) ;;;
  ret (mkFile path).

(** [fobj.write(data)]: appends to the buffer of the file object. *)
Definition write (fobj : file) (data : string) : M unit :=
  emit (EWrite (fpath fobj) data) ;;;
  io_check OpWrite ;;;
  modify (buffer (fpath fobj) data).

(** [fobj.flush()] *)
Definition flush (fobj : file) : M unit :=
  emit (EFlush (fpath fobj)) ;;;
  io_check OpFlush ;;;
  modify (drain (fpath fobj)).

(** [os.fsync(fobj.fileno())] *)
Definition fsync (fobj : file) : M unit :=
  emit (EFsync (fpath fobj)) ;;;
  io_check OpFsync ;;;
  modify (sync (fpath fobj)).

(** [fobj.close()], as run by the [with] statement on exit. *)
Definition close (fobj : file) : M unit :=
  emit (EClose (fpath fobj)) ;;;
  modify (release (fpath fobj)).

(** [with builtins.open(path, "w", ...) as fobj: body] *)
Definition with_open {A} (path : string) (body : file -> M A) : M A :=
  fobj <- open_w path ;;
  finally (body fobj) (close fobj).

(** [os.path.exists(path)] *)
Definition exists_ (path : string) : M bool :=
  w <- get_world ;;
  let found := bool_decide (is_Some (files w !! path)) in
  emit (EExists path found) ;;;
  ret found.

(** Does the deletion [a] fall in the interval (t0, t1]? *)
Definition due (t0 t1 : N) (a : N * string) : bool :=
  (t0 <? a.1)%N && (a.1 <=? t1)%N.

Definition unlink (a : N * string) (fs : gmap string string) :=
  delete a.2 fs.

(** Time passes by [ms], and the supervising process performs the
    deletions that fall due meanwhile. *)
Definition elapse (ms : N) (w : World) : World :=
  let t1 := (clock w + ms)%N in
  let gone := List.filter (due (clock w) t1) (supervisor w) in
  set_clock t1
    (set_disk (foldr unlink (disk w) gone)
       (set_files (foldr unlink (files w) gone) w)).

(** [sleep(ms / 1000)] *)
Definition sleep (ms : N) : M unit :=
  emit (ESleep ms) ;;;
  modify (elapse ms).

(** *** [make_checkpoint] *)

(** The delay of [sleep(0.1)], in milliseconds. *)
Definition poll_interval : N := 100.

(** [while os.path.exists(signal_file): sleep(0.1)], with [fuel] bounding
    the number of existence checks. *)
Fixpoint poll (fuel : nat) (signal_file : string) : M unit :=
  match fuel with
  | O => blocked
  | S fuel' =>
      found <- exists_ signal_file ;;
      if found then sleep poll_interval ;;; poll fuel' signal_file
      else ret tt
  end.

Section MakeCheckpoint.
Context `{Imports}.

Definition signal_path (root_dir : string) : string :=
  Posix.join root_dir [DVC_DIR; "tmp"; SIGNAL_FILE].

Definition write_signal (signal_file : string) : M unit :=
  with_open signal_file (fun fobj =>
    write fobj "" ;;;
    flush fobj ;;;
    fsync fobj).

Definition make_checkpoint (fuel : nat) : M unit :=
  flag <- getenv DVC_CHECKPOINT ;;
  match flag with
  | None => ret tt
  | Some _ =>
      (* the argument [Repo.find_root()] is evaluated before the call
         of [os.getenv] *)
      dflt <- find_root ;;
      root_dir <- getenv_default DVC_ROOT dflt ;;
      let signal_file := signal_path root_dir in
      write_signal signal_file ;;;
      poll fuel signal_file
  end.

(** The root directory line 25 computes. *)
Definition resolved_root (w : World) (searched : string) : string :=
  default searched (environ w !! DVC_ROOT).

End MakeCheckpoint.

(** *** Observing runs *)

(** What a run lets the outside see: the outcome, the trace, and the
    world it ends in, the environment variables set aside. *)
Definition behaviour {A} (r : outcome A * World * list event)
  : outcome A * list event * World :=
  (r.1.1, r.2, set_environ ∅ r.1.2).

(** The events of writing the signal file. *)
Definition sync_trace (p : string) : list event :=
  [EOpen p; EWrite p ""; EFlush p; EFsync p; EClose p].

(** [n] rounds of the wait: a check that finds the file, then a sleep. *)
Fixpoint rounds (p : string) (n : nat) : list event :=
  match n with
  | O => []
  | S n' => EExists p true :: ESleep poll_interval :: rounds p n'
  end.

Definition is_check (e : event) : bool :=
  match e with EExists _ _ => true | _ => false end.

(** The world after the signal file has been written and synced. *)
Definition signalled (p : string) (w : World) : World :=
  mkWorld (environ w) (found_root w) (<[p := ""]> (files w))
          (<[p := ""]> (disk w)) (delete p (buffers w)) (io_fault w)
          (clock w) (supervisor w).

(** Computations that do not look at the environment variables. *)
Definition env_blind {A} (m : M A) : Prop :=
  forall e w,
    m (set_environ e w) = let '(o, w', t) := m w in (o, set_environ e w', t).

(** *** Sample worlds *)

(** A supervised run with the override set, outside any repository. *)
Definition outside_repo_with_override : World :=
  mkWorld {[ "DVC_CHECKPOINT" := "1"; "DVC_ROOT" := "/repo" ]} None
          ∅ ∅ ∅ None 0 [].

(** A supervised run inside [/repo], whose supervisor deletes the signal
    file 250 ms after the call. *)
Definition supervised_in_repo : World :=
  mkWorld {[ "DVC_CHECKPOINT" := "" ]} (Some "/repo") ∅ ∅ ∅ None 0
          [(250%N, "/repo/.dvc/tmp/DVC_CHECKPOINT")].

(** The same run with a supervisor that never deletes the file. *)
Definition supervised_unanswered : World :=
  mkWorld {[ "DVC_CHECKPOINT" := "" ]} (Some "/repo") ∅ ∅ ∅ None 0 [].

(** An unsupervised run, with the override set and a signal file left
    behind. *)
Definition unsupervised : World :=
  mkWorld {[ "DVC_ROOT" := "/repo" ]} None
          {[ "/repo/.dvc/tmp/DVC_CHECKPOINT" := "" ]} ∅ ∅ (Some OpOpen) 7 [].


End Checkpoint.

(** ** Python's [float(str)]

    The conversion follows CPython: underscores between digits are dropped,
    white space around the text is stripped, and the rest must be, as a
    whole, an optionally signed decimal number with optional fraction and
    exponent, or [inf], [infinity] or [nan] in any letter case. The result
    is the binary64 number nearest to the decimal value (ties to even),
    infinite on overflow. The characters of a string are code points below
    256: of those outside the ASCII range Python takes U+0085 and U+00A0 for
    white space and none for a decimal digit. *)
Module PyFloat.

Definition float : Type := spec_float.

Definition prec : Z := 53.
Definition emax : Z := 1024.

Definition is_digit (c : ascii) : bool :=
  let n := N_of_ascii c in (48 <=? n)%N && (n <=? 57)%N.

Definition digit_val (c : ascii) : N := (N_of_ascii c - 48)%N.

(** [Py_ISSPACE]: space, [\t], [\n], [\v], [\f], [\r]. *)
Definition is_space (c : ascii) : bool :=
  let n := N_of_ascii c in (n =? 32)%N || ((9 <=? n)%N && (n <=? 13)%N).

(** [_PyUnicode_TransformDecimalAndSpaceToASCII]: a white space character
    outside the ASCII range becomes a space. *)
Definition to_ascii_space (c : ascii) : ascii :=
  let n := N_of_ascii c in
  if (n =? 133)%N || (n =? 160)%N then " "%char else c.

Fixpoint transform (s : string) : string :=
  match s with
  | EmptyString => EmptyString
  | String c r => String (to_ascii_space c) (transform r)
  end.

(** [Py_TOLOWER] *)
Definition to_lower (c : ascii) : ascii :=
  let n := N_of_ascii c in
  if (65 <=? n)%N && (n <=? 90)%N then ascii_of_N (n + 32) else c.

Fixpoint lower (s : string) : string :=
  match s with
  | EmptyString => EmptyString
  | String c r => String (to_lower c) (lower r)
  end.

Definition underscore : ascii := "_"%char.

(** Drops the underscores of [s]; [prev] is the character before [s].
    An underscore must follow a digit and be followed by a digit. *)
Fixpoint drop_underscores (prev : option ascii) (s : string)
  : option string :=
  match s with
  | EmptyString =>
      if bool_decide (prev = Some underscore) then None
      else Some EmptyString
  | String c r =>
      if Ascii.eqb c underscore then
        match prev with
        | Some d => if is_digit d then drop_underscores (Some c) r else None
        | None => None
        end
      else if bool_decide (prev = Some underscore) && negb (is_digit c)
      then None
      else String c <$> drop_underscores (Some c) r
  end.

Fixpoint lstrip (s : string) : string :=
  match s with
  | String c r => if is_space c then lstrip r else s
  | EmptyString => EmptyString
  end.

Fixpoint rstrip (s : string) : string :=
  match s with
  | EmptyString => EmptyString
  | String c r =>
      match rstrip r with
      | EmptyString => if is_space c then EmptyString else String c EmptyString
      | r' => String c r'
      end
  end.

Definition strip (s : string) : string := rstrip (lstrip s).

(** Reads the decimal digits at the head of [s]: the value accumulated
    from [acc], the number of digits read, and the rest. *)
Fixpoint scan_digits (s : string) (acc : N) (count : nat)
  : N * nat * string :=
  match s with
  | String c r =>
      if is_digit c then scan_digits r (10 * acc + digit_val c)%N (S count)
      else (acc, count, s)
  | EmptyString => (acc, count, s)
  end.

(** An optional sign: whether it is a minus, and the rest. *)
Definition scan_sign (s : string) : bool * string :=
  match s with
  | String "-" r => (true, r)
  | String "+" r => (false, r)
  | _ => (false, s)
  end.

(** The exponent part, [s] being what follows the digits and the
    fraction: the decimal exponent, when [s] is empty or a whole
    exponent. *)
Definition scan_exponent (s : string) : option Z :=
  match s with
  | EmptyString => Some 0%Z
  | String c r =>
      if Ascii.eqb (to_lower c) "e"%char then
        let '(neg, r1) := scan_sign r in
        let '(ex, n, r2) := scan_digits r1 0 0 in
        match n, r2 with
        | S _, EmptyString =>
            Some (if neg then - Z.of_N ex else Z.of_N ex)%Z
        | _, _ => None
        end
      else None
  end.

(** An unsigned decimal number [m * 10 ^ e], as the pair [(m, e)]. *)
Definition scan_number (s : string) : option (N * Z) :=
  let '(ip, ni, s1) := scan_digits s 0 0 in
  let '(m, nf, s2) :=
    match s1 with
    | String "." r => scan_digits r ip 0
    | _ => (ip, 0, s1)
    end in
  match ni + nf with
  | O => None
  | S _ => ex ← scan_exponent s2; Some (m, (ex - Z.of_nat nf)%Z)
  end.

(** The binary64 number nearest to [n / d], ties to even. *)
Definition round_quotient (neg : bool) (n d : positive) : float :=
  let '(q, e, l) := SFdiv_core_binary prec emax (Zpos n) 0 (Zpos d) 0 in
  binary_round_aux prec emax neg q e l.

(** The binary64 number nearest to [m * 10 ^ e]. *)
Definition of_decimal (neg : bool) (m : N) (e : Z) : float :=
  match m with
  | N0 => S754_zero neg
  | Npos p =>
      match e with
      | Z0 => round_quotient neg p 1
      | Zpos k => round_quotient neg (p * 10 ^ k) 1
      | Zneg k => round_quotient neg p (10 ^ k)
      end
  end.

(** [_Py_parse_inf_or_nan], after the sign. *)
Definition inf_or_nan (neg : bool) (s : string) : option float :=
  let l := lower s in
  if String.eqb l "inf" || String.eqb l "infinity" then
    Some (S754_infinity neg)
  else if String.eqb l "nan" then Some S754_nan
  else None.

(** [float(s)]: [None] stands for [ValueError]. *)
Definition float_of_str (s : string) : option float :=
  s1 ← drop_underscores None (transform s);
  let '(neg, body) := scan_sign (strip s1) in
  match scan_number body with
  | Some (m, e) => Some (of_decimal neg m e)
  | None => inf_or_nan neg body
  end.

End PyFloat.

(** ** Cell values and tables *)
Module Table.

(** [rich.text.Text]: the plain text and the styling laid over it. *)
Record Text := mkText {
  plain : string;
  style : string;
  spans : list (nat * nat * string)
}.

(** [Text.__str__] returns the plain text. *)
Definition str (v : Text) : string := plain v.

(** The values a cell holds. *)
Inductive value :=
| VNone
| VBool (b : bool)
| VInt (n : Z)
| VFloat (x : PyFloat.float)
| VStr (s : string)
| VText (t : Text).

(** [isinstance(v, Text)] *)
Definition is_text (v : value) : bool :=
  match v with VText _ => true | _ => false end.

(** A dictionary object is reached through a reference; the list
    [exp_rows] holds references, and two of them may be the same. *)
Definition ref := nat.
Abbreviation dict := (gmap string value).
Abbreviation heap := (gmap ref dict).

(** The body of the inner loop for the key [k]: the value is the one the
    dictionary holds when the iteration reaches [k]. *)
Definition visit (exp_row : dict) (k : string) : dict :=
  match exp_row !! k with
  | Some (VText t) =>
      let v_str := str t in
      match PyFloat.float_of_str v_str with
      | Some x => <[k := VFloat x]> exp_row
      | None => <[k := VStr v_str]> exp_row
      end
  | _ => exp_row
  end.

(** [for k, v in exp_row.items(): ...]. The loop assigns to keys the
    dictionary already has, so the keys iterated are those it starts
    with. *)
Definition postprocess_row (exp_row : dict) : dict :=
  foldl visit exp_row (map_to_list exp_row).*1.

(** One iteration of [for exp_row in exp_rows]: the dictionary behind the
    reference is updated in place. *)
Definition postprocess_ref (h : heap) (r : ref) : heap :=
  match h !! r with
  | Some exp_row => <[r := postprocess_row exp_row]> h
  | None => h
  end.

(** [_postprocess(exp_rows)] returns the list it was given, and leaves
    the heap with the rows rewritten. *)
Definition _postprocess (exp_rows : list ref) (h : heap)
  : list ref * heap :=
  (exp_rows, foldl postprocess_ref h exp_rows).

(** Reading a table: the row at index [i], and its cell for column [k]. *)
Definition row_at (t : list ref * heap) (i : nat) : option dict :=
  r ← t.1 !! i; t.2 !! r.

Definition cell (t : list ref * heap) (i : nat) (k : string)
  : option value :=
  row ← row_at t i; row !! k.

(** The Normalized Record rule as the specification words it: a rich text
    value becomes its plain string, replaced by the number when the
    string parses as a floating-point number; any other value passes
    through unchanged. *)
Definition normalize_spec (v : value) : value :=
  match v with
  | VText t =>
      match PyFloat.float_of_str (plain t) with
      | Some x => VFloat x
      | None => VStr (plain t)
      end
  | _ => v
  end.

(** The key set of a row. *)
Definition keys (row : dict) : gset string := dom row.

(** A Normalized Record: the rule applied to every cell. *)
Definition normalize_row (row : dict) : dict := normalize_spec <$> row.

Definition rich (s : string) : value := VText (mkText s "bold" []).

(** *** Sample values and tables *)

(** The binary64 numbers 0.825 (0x3FEA666666666666), 1.5 and 1000.0. *)
Definition float_0_825 : PyFloat.float :=
  S754_finite false 7430939385161318 (-53).
Definition float_1_5 : PyFloat.float :=
  S754_finite false 6755399441055744 (-52).
Definition float_1000 : PyFloat.float :=
  S754_finite false 8796093022208000 (-43).

(** Two rows, the second one listed twice. *)
Definition sample_rows : list ref := [0; 1; 1].

Definition sample_heap : heap :=
  {[ 0 := {[ "a" := rich "0.825"; "b" := VInt 2; "c" := VStr "0.825" ]};
     1 := {[ "a" := rich "abc"; "b" := VNone; "c" := VFloat float_1_5 ]} ]}.

(** A row of rich texts that Python's [float] accepts. *)
Definition numeric_rows : list ref := [7].

Definition numeric_heap : heap :=
  {[ 7 := {[ "exp" := rich "1e3"; "spaces" := rich "  1.5 ";
             "nan" := rich "nan"; "inf" := rich "inf";
             "infinity" := rich "Infinity"; "hex" := rich "0x10" ]} ]}.

End Table.

(** ** [exp_save] and the repository it delegates to *)
Module ExpSave.

Inductive error :=
| RepositoryNotFoundError
| ExperimentExistsError (name : string)
| RepositoryError (msg : string).

(** The state of a repository. *)
Record Repository := mkRepository {
  (** the experiments by name, with their revisions *)
  experiments : gmap string string;
  (** the name and the revision the repository gives the next
      experiment *)
  next_name : string;
  next_rev : string;
  (** a failure of the repository pending for the next operation *)
  pending_failure : option string
}.

Record Store := mkStore {
  (** the repository around the working directory, if there is one *)
  repository : option Repository;
  (** repository contexts held open *)
  held : nat
}.

Inductive event :=
| EAcquire
| ESave (name : string) (rev : string) (untracked : list string)
| ERelease.

Definition result (A : Type) : Type := (error + A) * Store * list event.

Definition M (A : Type) : Type := Store -> result A.

Definition ret {A} (a : A) : M A := fun s => (inr a, s, []).

Definition raise {A} (e : error) : M A := fun s => (inl e, s, []).

Definition bind {A B} (m : M A) (k : A -> M B) : M B := fun s =>
  match m s with
  | (inr a, s1, t1) => let '(o, s2, t2) := k a s1 in (o, s2, t1 ++ t2)
  | (inl e, s1, t1) => (inl e, s1, t1)
  end.

(** [try: m except Exception as e: ...]: the failure of [m] as a value. *)
Definition try_ {A} (m : M A) : M (error + A) := fun s =>
  let '(o, s1, t1) := m s in (inr o, s1, t1).

Definition emit (e : event) : M unit := fun s => (inr tt, s, [e]).

Definition get : M Store := fun s => (inr s, s, []).

Definition put (s : Store) : M unit := fun _ => (inr tt, s, []).

Declare Scope save_scope.
Delimit Scope save_scope with save.
Notation "x <- m ;; k" := (bind m (fun x => k))
  (at level 100, m at next level, right associativity) : save_scope.
Notation "m ;;; k" := (bind m (fun _ => k))
  (at level 100, right associativity) : save_scope.
Local Open Scope save_scope.

(** A context manager: [__enter__] and [__exit__]; the latter tells
    whether it swallows the exception it is given. *)
Record manager (V : Type) := mkManager {
  enter : M V;
  exit : option error -> M bool
}.
Global Arguments enter {V} _.
Global Arguments exit {V} _ _.

(** [with ctor as v: return body(v)]. [__exit__] runs when the body
    returns and when it fails; a failure it does not swallow is raised
    again, and after one it swallows the function returns [None]. *)
Definition with_ {V A} (ctor : M (manager V)) (body : V -> M A)
  : M (option A) :=
  mgr <- ctor ;;
  v <- enter mgr ;;
  r <- try_ (body v) ;;
  match r with
  | inr a => exit mgr None ;;; ret (Some a)
  | inl e =>
      swallowed <- exit mgr (Some e) ;;
      if swallowed : bool then ret None else raise e
  end.

(** Modelled from the spec: the repository context [Repo], whose class
    is defined outside the verified file. Opening fails when there is no
    repository; entering acquires it; leaving releases it and lets a
    failure of the body propagate. *)
Definition Repo : M (manager unit) :=
  s <- get ;;
  match repository s with
  | None => raise RepositoryNotFoundError
  | Some _ =>
      ret {| enter :=
               emit EAcquire ;;;
               s <- get ;; put (mkStore (repository s) (S (held s)));
             exit := fun _ =>
               emit ERelease ;;;
               s <- get ;; put (mkStore (repository s) (pred (held s))) ;;;
               ret false |}
  end.

(** Modelled from the spec: [repo.experiments.save], defined outside the
    verified file. It fails with [ExperimentExistsError] when the name
    is the one of an existing experiment and [force] is false, fails
    with the pending repository failure if there is one, and otherwise
    records the experiment and returns its revision. *)
Definition experiments_save (name : option string) (force : bool)
    (include_untracked : option (list string)) : M string :=
  s <- get ;;
  match repository s with
  | None => raise RepositoryNotFoundError
  | Some r =>
      let n := default (next_name r) name in
      if bool_decide (is_Some name /\ is_Some (experiments r !! n))
         && negb force
      then raise (ExperimentExistsError n)
      else
        match pending_failure r with
        | Some msg => raise (RepositoryError msg)
        | None =>
            let r' := mkRepository (<[n := next_rev r]> (experiments r))
                        (next_name r) (next_rev r) None in
            emit (ESave n (next_rev r) (default [] include_untracked)) ;;;
            put (mkStore (Some r') (held s)) ;;;
            ret (next_rev r)
        end
  end.

(** [exp_save(name=None, force=False, include_untracked=None)]. The
    result is [None] only if the context manager swallowed a failure of
    the body. *)
Definition exp_save (name : option string) (force : bool)
    (include_untracked : option (list string)) : M (option string) :=
  with_ Repo (fun repo => experiments_save name force include_untracked).

(** The store as the body of the [with] statement finds it. *)
Definition acquired (s : Store) : Store :=
  mkStore (repository s) (S (held s)).

(** [name] is the name of an experiment of the repository of [s]. *)
Definition collides (s : Store) (name : option string) : Prop :=
  exists r n, repository s = Some r /\ name = Some n /\
              is_Some (experiments r !! n).

(** A repository with one experiment, [urban-sign]. *)
Definition sample_store : Store :=
  mkStore (Some (mkRepository {[ "urban-sign" := "4f1e2d" ]}
                   "bold-wave" "a81c07" None)) 0.

End ExpSave.

(** ** What a run of [make_checkpoint] touches *)
Module Footprint.
Import Checkpoint.




(** [m] leaves the file [q] as it is, for other processes and on disk, and
    does not change the plans of the supervisor, provided the supervisor
    plans no deletion of [q]. *)
Definition spares (q : string) {A} (m : M A) : Prop :=
  forall w, (forall d, (d, q) ∉ supervisor w) ->
    files (m w).1.2 !! q = files w !! q /\
    disk (m w).1.2 !! q = disk w !! q /\
    supervisor (m w).1.2 = supervisor w.

(** The events of writing the signal file when the file system fails at
    [op]: the [with] statement closes the file once it is open. *)
Definition failed_trace (p : string) (op : io_op) : list event :=
  match op with
  | OpOpen => [EOpen p]
  | OpWrite => [EOpen p; EWrite p ""; EClose p]
  | OpFlush => [EOpen p; EWrite p ""; EFlush p; EClose p]
  | OpFsync => [EOpen p; EWrite p ""; EFlush p; EFsync p; EClose p]
  end.

(** The world such a failure leaves. *)
Definition failed_world (p : string) (op : io_op) (w : World) : World :=
  match op with
  | OpOpen => w
  | OpWrite => release p (truncate p w)
  | OpFlush => release p (buffer p "" (truncate p w))
  | OpFsync => release p (drain p (buffer p "" (truncate p w)))
  end.

(** A supervised run in [/repo] whose disk fails at [fsync], with another
    file around. *)
Definition fsync_fails : World :=
  mkWorld {[ "DVC_CHECKPOINT" := "1" ]} (Some "/repo")
          {[ "/repo/params.yaml" := "lr: 0.1" ]} ∅ ∅ (Some OpFsync) 0 [].

(** A supervised run in [/repo] with another file around, answered after
    250 ms. *)
Definition supervised_with_params : World :=
  mkWorld {[ "DVC_CHECKPOINT" := "1" ]} (Some "/repo")
          {[ "/repo/params.yaml" := "lr: 0.1" ]}
          {[ "/repo/params.yaml" := "lr: 0.1" ]} ∅ None 0
          [(250%N, "/repo/.dvc/tmp/DVC_CHECKPOINT")].

End Footprint.

(** ** [exp_show] *)
Module ExpShow.
Import ExpSave Table.
Local Open Scope save_scope.

(** [revs: Optional[Union[str, List[str]]]] *)
Inductive revs_arg :=
| RevsOne (rev : string)
| RevsMany (revs : list string).

(** The keyword arguments of [_repo.experiments.show]. *)
Record show_options := mkShowOptions {
  opt_hide_queued : bool;
  opt_hide_failed : bool;
  opt_revs : option revs_arg;
  opt_num : Z;
  opt_sha_only : bool;
  opt_param_deps : bool;
  opt_force : bool
}.

(** The dictionaries [td.as_dict()] builds are new objects: they are bound
    to the references 0, 1, ... of a heap holding nothing else. *)
Definition fresh (rows : list dict) : list ref * heap :=
  (seq 0 (length rows), map_seq 0 rows).

(** The list of dictionaries a list of references stands for. *)
Definition read (t : list ref * heap) : list dict :=
  omap (fun r => t.2 !! r) t.1.

Section ExpShow.

(** The collaborators, defined outside the verified file: [Repo.open],
    [_repo.experiments.show], [tabulate] (its first result) and
    [TabularData.as_dict]. *)
Context {experiments_t tabular : Type}.
Variable Repo_open : option string -> M (manager unit).
Variable experiments_show : show_options -> M experiments_t.
Variable tabulate : experiments_t -> value -> tabular.
Variable as_dict : tabular -> list dict.

(** [exp_show(repo, revs, num, hide_queued, hide_failed, sha, param_deps,
    force)] *)
Definition exp_show (repo : option string) (revs : option revs_arg)
    (num : Z) (hide_queued hide_failed sha param_deps force : bool)
  : M (option (list dict)) :=
  with_ (Repo_open repo) (fun _repo =>
    experiments <- experiments_show
                     {| opt_hide_queued := hide_queued;
                        opt_hide_failed := hide_failed;
                        opt_revs := revs;
                        opt_num := num;
                        opt_sha_only := sha;
                        opt_param_deps := param_deps;
                        opt_force := force |} ;;
    let td := tabulate experiments VNone in
    let exp_rows := fresh (as_dict td) in
    ret (read (_postprocess exp_rows.1 exp_rows.2))).

End ExpShow.

(** Collaborators for sample runs: the repository of the working
    directory, an experiments subsystem that returns the records it is
    given or fails on an ambiguous revision, and a tabulation that keeps
    the records. *)
Definition sample_show (records : list dict) (o : show_options)
  : M (list dict) :=
  match opt_revs o with
  | Some (RevsOne "ambiguous") => raise (RepositoryError "ambiguous")
  | _ => ret records
  end.

Definition sample_records : list dict :=
  [ {[ "Experiment" := rich "urban-sign"; "acc" := rich "0.825" ]};
    {[ "Experiment" := rich "bold-wave"; "acc" := VNone ]} ].

Definition sample_exp_show (revs : option revs_arg)
  : M (option (list dict)) :=
  exp_show (fun _ => Repo) (sample_show sample_records)
           (fun e _ => e) (fun td => td)
           None revs 1 false false false false false.

End ExpShow.

(** ** Padding of plain strings *)
Module Padding.

(** [s] consists of ASCII white space: spaces, tabs, line breaks. *)
Fixpoint all_space (s : string) : bool :=
  match s with
  | EmptyString => true
  | String c r => PyFloat.is_space c && all_space r
  end.

(** What comes before matters to [drop_underscores] only when it is a
    digit or an underscore. *)
Definition inert (prev : option ascii) : bool :=
  match prev with
  | None => true
  | Some c =>
      negb (PyFloat.is_digit c) && negb (Ascii.eqb c PyFloat.underscore)
  end.

End Padding.

(** * Evaluations *)

Example join_signal_path :
  Posix.join "/repo" [".dvc"; "tmp"; "DVC_CHECKPOINT"]
  = "/repo/.dvc/tmp/DVC_CHECKPOINT".
Proof. reflexivity. Qed.

Example join_trailing_separator :
  Posix.join "/" [".dvc"; "tmp"] = "/.dvc/tmp" /\
  Posix.join "" [".dvc"; "tmp"] = ".dvc/tmp" /\
  Posix.join "/repo" ["/abs"; "tmp"] = "/abs/tmp".
Proof. repeat split. Qed.

(** 0.1 is 0x3FB999999999999A; 2^53 + 1 is a tie and rounds to the even
    2^53; the least subnormal number is 5e-324, and half of it is the
    largest decimal that rounds to zero. *)
Example float_of_str_rounds_to_nearest_even :
  PyFloat.float_of_str "0.1"
    = Some (S754_finite false 7205759403792794 (-56)) /\
  PyFloat.float_of_str "9007199254740993"
    = Some (S754_finite false 4503599627370496 1) /\
  PyFloat.float_of_str "5e-324" = Some (S754_finite false 1 (-1074)) /\
  PyFloat.float_of_str "2.4703282292062327e-324" = Some (S754_zero false) /\
  PyFloat.float_of_str "2.4703282292062328e-324"
    = Some (S754_finite false 1 (-1074)).
Proof. repeat split; vm_compute; reflexivity. Qed.

Example float_of_str_overflows_to_infinity :
  PyFloat.float_of_str "1.7976931348623157e308"
    = Some (S754_finite false 9007199254740991 971) /\
  PyFloat.float_of_str "1.7976931348623159e308"
    = Some (S754_infinity false) /\
  PyFloat.float_of_str "-1e400" = Some (S754_infinity true) /\
  PyFloat.float_of_str "-1e-400" = Some (S754_zero true).
Proof. repeat split; vm_compute; reflexivity. Qed.

Example float_of_str_grammar :
  PyFloat.float_of_str "1_000.5" = PyFloat.float_of_str "1000.5" /\
  PyFloat.float_of_str ".5" = PyFloat.float_of_str "0.5" /\
  PyFloat.float_of_str "5.e1" = PyFloat.float_of_str "50" /\
  PyFloat.float_of_str "+NaN" = Some S754_nan /\
  PyFloat.float_of_str "" = None /\
  PyFloat.float_of_str "   " = None /\
  PyFloat.float_of_str "1__0" = None /\
  PyFloat.float_of_str "1_" = None /\
  PyFloat.float_of_str "1e" = None /\
  PyFloat.float_of_str "." = None /\
  PyFloat.float_of_str "1 2" = None /\
  PyFloat.float_of_str "infinit" = None /\
  PyFloat.float_of_str "1,5" = None.
Proof. repeat split; vm_compute; reflexivity. Qed.

(** The supervisor deletes the signal file 250 ms after the call: the
    third sleep ends at 300 ms and the fourth check misses the file. *)
Example make_checkpoint_answered :
  let p := "/repo/.dvc/tmp/DVC_CHECKPOINT" in
  let r := @Checkpoint.make_checkpoint dvc_imports 10
             Checkpoint.supervised_in_repo in
  r.1.1 = Checkpoint.Returned tt /\
  Checkpoint.clock r.1.2 = 300%N /\
  Checkpoint.files r.1.2 !! p = None /\
  r.2 = Checkpoint.EFindRoot :: Checkpoint.sync_trace p ++
        Checkpoint.rounds p 3 ++ [Checkpoint.EExists p false].
Proof. repeat split. Qed.

(** Nobody deletes the signal file: after three checks the call is still
    waiting, with the empty file in place and on disk. *)
Example make_checkpoint_unanswered :
  let p := "/repo/.dvc/tmp/DVC_CHECKPOINT" in
  let r := @Checkpoint.make_checkpoint dvc_imports 3
             Checkpoint.supervised_unanswered in
  r.1.1 = Checkpoint.Blocked /\
  Checkpoint.clock r.1.2 = 300%N /\
  Checkpoint.files r.1.2 !! p = Some "" /\
  Checkpoint.disk r.1.2 !! p = Some "" /\
  r.2 = Checkpoint.EFindRoot :: Checkpoint.sync_trace p ++
        Checkpoint.rounds p 3.
Proof. repeat split. Qed.

(** Saving under the name of an existing experiment fails unless forced,
    and the context is released both times. *)
Example exp_save_collision :
  ExpSave.exp_save (Some "urban-sign") false None ExpSave.sample_store
  = (inl (ExpSave.ExperimentExistsError "urban-sign"), ExpSave.sample_store,
     [ExpSave.EAcquire; ExpSave.ERelease]) /\
  let r := ExpSave.exp_save (Some "urban-sign") true (Some ["data.csv"])
             ExpSave.sample_store in
  r.1.1 = inr (Some "a81c07") /\
  ExpSave.held r.1.2 = 0 /\
  r.2 = [ExpSave.EAcquire; ExpSave.ESave "urban-sign" "a81c07" ["data.csv"];
         ExpSave.ERelease].
Proof. repeat split. Qed.

(** * Properties of [make_checkpoint] *)

Import Checkpoint.

Section CheckpointFacts.
Local Open Scope checkpoint_scope.
Context `{Imports}.

Lemma make_checkpoint_supervised (fuel : nat) (w : World) (v : string) :
  environ w !! DVC_CHECKPOINT = Some v ->
  make_checkpoint fuel w =
  match found_root w with
  | None => (Raised RepositoryNotFoundError, w, [EFindRoot])
  | Some root =>
      let p := signal_path (resolved_root w root) in
      let '(o, w', t) :=
        (write_signal p ;;; poll fuel p) w in
      (o, w', EFindRoot :: t)
  end.
Proof.
  intros Hflag. unfold make_checkpoint, getenv, bind at 1, get_world, ret.
  cbn. rewrite Hflag. unfold find_root, getenv_default, resolved_root.
  unfold bind, emit, get_world, ret, raise. cbn.
  destruct (found_root w) as [root|]; [|reflexivity]. cbn.
  destruct (write_signal _ w) as [[[a|e|] w1] t1]; cbn; try reflexivity.
  destruct (poll _ _ w1) as [[o w2] t2]. reflexivity.
Qed.

Lemma run_bind {A B} (m : M A) (k : A -> M B) w a w1 t1 o w2 t2 :
  m w = (Returned a, w1, t1) ->
  k a w1 = (o, w2, t2) ->
  bind m k w = (o, w2, t1 ++ t2).
Proof. intros Hm Hk. unfold bind. rewrite Hm, Hk. reflexivity. Qed.

Lemma io_check_ok (op : io_op) (w : World) :
  io_fault w = None -> io_check op w = (Returned tt, w, []).
Proof.
  intros Hio. unfold io_check, bind, get_world, ret, raise. cbn.
  rewrite Hio. case_decide; [discriminate | reflexivity].
Qed.

Local Arguments io_check : simpl never.

Lemma open_w_ok (p : string) (w : World) :
  io_fault w = None ->
  open_w p w = (Returned (mkFile p), truncate p w, [EOpen p]).
Proof.
  intros Hio. unfold open_w, bind, emit, modify, ret. cbn.
  rewrite io_check_ok by assumption. reflexivity.
Qed.

Lemma write_run_ok (f : file) (d : string) (w : World) :
  io_fault w = None ->
  write f d w = (Returned tt, buffer (fpath f) d w, [EWrite (fpath f) d]).
Proof.
  intros Hio. unfold write, bind, emit, modify, ret. cbn.
  rewrite io_check_ok by assumption. reflexivity.
Qed.

Lemma flush_ok (f : file) (w : World) :
  io_fault w = None ->
  flush f w = (Returned tt, drain (fpath f) w, [EFlush (fpath f)]).
Proof.
  intros Hio. unfold flush, bind, emit, modify, ret. cbn.
  rewrite io_check_ok by assumption. reflexivity.
Qed.

Lemma fsync_ok (f : file) (w : World) :
  io_fault w = None ->
  fsync f w = (Returned tt, sync (fpath f) w, [EFsync (fpath f)]).
Proof.
  intros Hio. unfold fsync, bind, emit, modify, ret. cbn.
  rewrite io_check_ok by assumption. reflexivity.
Qed.

Lemma close_run (f : file) (w : World) :
  close f w = (Returned tt, release (fpath f) w, [EClose (fpath f)]).
Proof. reflexivity. Qed.

Lemma io_fault_truncate p w : io_fault (truncate p w) = io_fault w.
Proof. reflexivity. Qed.

Lemma io_fault_buffer p d w : io_fault (buffer p d w) = io_fault w.
Proof. reflexivity. Qed.

Lemma io_fault_drain p w : io_fault (drain p w) = io_fault w.
Proof. reflexivity. Qed.

Lemma world_eq (w1 w2 : World) :
  environ w1 = environ w2 -> found_root w1 = found_root w2 ->
  files w1 = files w2 -> disk w1 = disk w2 -> buffers w1 = buffers w2 ->
  io_fault w1 = io_fault w2 -> clock w1 = clock w2 ->
  supervisor w1 = supervisor w2 -> w1 = w2.
Proof. destruct w1, w2. cbn. by intros -> -> -> -> -> -> -> ->. Qed.

Ltac world_fields :=
  cbn [environ found_root files disk buffers io_fault clock supervisor
       set_environ set_files set_disk set_buffers set_clock
       truncate buffer drain sync release elapse].

Lemma signalled_eq (p : string) (w : World) :
  release p (sync p (drain p (buffer p "" (truncate p w)))) = signalled p w.
Proof.
  apply world_eq; try reflexivity; unfold signalled; world_fields.
  - rewrite !lookup_alter_eq, !lookup_insert_eq.
    cbn [fmap option_fmap option_map].
    apply map_eq. intros k. destruct (decide (k = p)) as [->|Hne].
    + rewrite !lookup_alter_eq, !lookup_insert_eq. reflexivity.
    + rewrite !lookup_alter_ne, !lookup_insert_ne by congruence. reflexivity.
  - rewrite !lookup_alter_eq, !lookup_insert_eq.
    cbn [fmap option_fmap option_map].
    rewrite lookup_alter_eq, lookup_insert_eq. reflexivity.
  - apply map_eq. intros k. destruct (decide (k = p)) as [->|Hne].
    + rewrite !lookup_delete_eq. reflexivity.
    + rewrite lookup_delete_ne, lookup_delete_ne by congruence.
      rewrite !lookup_alter_ne, !lookup_insert_ne by congruence. reflexivity.
Qed.

Lemma write_signal_ok (p : string) (w : World) :
  io_fault w = None ->
  write_signal p w = (Returned tt, signalled p w, sync_trace p).
Proof.
  intros Hio. unfold write_signal, with_open, bind at 1.
  rewrite open_w_ok by assumption. unfold finally.
  set (f := mkFile p).
  assert (Hbody : (write f "" ;;; flush f ;;; fsync f) (truncate p w) =
                  (Returned tt, sync p (drain p (buffer p "" (truncate p w))),
                   [EWrite p ""; EFlush p; EFsync p])).
  { unfold bind. rewrite write_run_ok by assumption.
    rewrite flush_ok by assumption. rewrite fsync_ok by assumption.
    reflexivity. }
  rewrite Hbody, close_run. subst f. cbn [fpath].
  rewrite signalled_eq. reflexivity.
Qed.

Lemma io_check_run (op : io_op) (w : World) :
  io_check op w =
  (if decide (io_fault w = Some op) then Raised IOError else Returned tt,
   w, []).
Proof.
  unfold io_check, bind, get_world, ret, raise. cbn.
  case_decide; reflexivity.
Qed.

Lemma write_signal_fault (p : string) (w : World) (op : io_op) :
  io_fault w = Some op ->
  exists w1 t1,
    write_signal p w = (Raised IOError, w1, t1) /\
    Forall (fun e => is_check e = false) t1.
Proof.
  destruct w as [env fr fs dk bf io ck sup]. cbn. intros ->.
  unfold write_signal, with_open, open_w, write, flush, fsync, close,
    finally, bind, emit, modify, ret.
  destruct op; cbn; rewrite ?io_check_run; cbn;
    repeat (case_decide; try congruence; cbn; rewrite ?io_check_run; cbn);
    eexists _, _; (split; [reflexivity | repeat constructor]).
Qed.

(** *** The polling loop *)

Lemma poll_S (fuel : nat) (p : string) (w : World) :
  poll (S fuel) p w =
  if bool_decide (is_Some (files w !! p)) then
    let '(o, w', t) := poll fuel p (elapse poll_interval w) in
    (o, w', EExists p true :: ESleep poll_interval :: t)
  else (Returned tt, w, [EExists p false]).
Proof.
  cbn [poll]. unfold bind at 1, exists_, bind, get_world, emit, ret, sleep,
    modify. cbn.
  destruct (bool_decide (is_Some (files w !! p))); [|reflexivity].
  cbn. destruct (poll fuel p _) as [[o w'] t]. reflexivity.
Qed.

Lemma lookup_foldr_unlink (fs : gmap string string)
    (l : list (N * string)) (p : string) :
  foldr unlink fs l !! p = if decide (p ∈ l.*2) then None else fs !! p.
Proof.
  induction l as [|[d q] l IH].
  - cbn. rewrite decide_False; [reflexivity | apply not_elem_of_nil].
  - change (foldr unlink fs ((d, q) :: l))
      with (delete q (foldr unlink fs l)).
    rewrite fmap_cons. cbn [snd]. destruct (decide (q = p)) as [->|Hne].
    + rewrite lookup_delete_eq, decide_True; [reflexivity | left].
    + rewrite lookup_delete_ne, IH by assumption.
      destruct (decide (p ∈ l.*2)) as [Hin|Hin].
      * rewrite decide_True; [reflexivity | by right].
      * rewrite decide_False; [reflexivity|].
        intros [->|?]%elem_of_cons; congruence.
Qed.

Lemma elapse_files_gone (ms d : N) (p : string) (w : World) :
  (d, p) ∈ supervisor w -> (clock w < d)%N -> (d <= clock w + ms)%N ->
  files (elapse ms w) !! p = None.
Proof.
  intros Hin Hlt Hle. world_fields.
  rewrite lookup_foldr_unlink, decide_True; [reflexivity|].
  apply list_elem_of_fmap. exists (d, p). split; [reflexivity|].
  apply list_elem_of_In, filter_In. split; [by apply list_elem_of_In|].
  unfold due. cbn [fst]. apply andb_true_iff.
  split; [by apply N.ltb_lt | by apply N.leb_le].
Qed.

Lemma elapse_files_kept (ms : N) (p : string) (w : World) :
  (forall d, (d, p) ∈ supervisor w -> (d <= clock w)%N) ->
  files (elapse ms w) !! p = files w !! p.
Proof.
  intros Hpast. world_fields.
  rewrite lookup_foldr_unlink, decide_False; [reflexivity|].
  intros ([d q] & Hq & Hin)%list_elem_of_fmap. cbn in Hq. subst q.
  apply list_elem_of_In, filter_In in Hin as [Hin Hdue].
  apply list_elem_of_In, Hpast in Hin. unfold due in Hdue. cbn [fst] in Hdue.
  apply andb_true_iff in Hdue as [Hlt _].
  apply N.ltb_lt in Hlt. lia.
Qed.

(** The shape of every run of the loop: rounds of a successful check and
    a sleep, closed by the one check that misses the file unless the fuel
    ran out first. *)
Lemma poll_shape (fuel : nat) (p : string) (w : World) :
  exists n,
    let '(o, w', t) := poll fuel p w in
    clock w' = (clock w + poll_interval * N.of_nat n)%N /\
    supervisor w' = supervisor w /\
    ((o = Returned tt /\ n < fuel /\ files w' !! p = None /\
      t = rounds p n ++ [EExists p false]) \/
     (o = Blocked /\ n = fuel /\ t = rounds p n)).
Proof.
  revert w. induction fuel as [|fuel IH]; intros w.
  - exists 0. cbn. repeat split; [lia | by right].
  - rewrite poll_S. case_bool_decide as Hfound.
    + destruct (IH (elapse poll_interval w)) as [n Hn].
      destruct (poll fuel p _) as [[o w'] t].
      destruct Hn as (Hclock & Hsup & Hcases). exists (S n).
      split; [rewrite Hclock; cbn [elapse clock set_clock]; lia|].
      split; [rewrite Hsup; reflexivity|].
      destruct Hcases as [(-> & Hlt & Hgone & ->)|(-> & -> & ->)].
      * left. repeat split; [lia | assumption].
      * right. repeat split.
    + exists 0. split; [lia|]. split; [reflexivity|]. left.
      repeat split; [lia|]. by apply eq_None_not_Some.
Qed.

(** With the file in place and a deletion of it ahead at time [d], the
    loop returns, less than one interval after [d]. *)
Lemma poll_returns (d : N) (p : string) (fuel : nat) (w : World) :
  (d, p) ∈ supervisor w -> (clock w < d)%N ->
  (d - clock w <= poll_interval * N.of_nat fuel)%N ->
  (poll (S fuel) p w).1.1 = Returned tt /\
  (clock (poll (S fuel) p w).1.2 < d + poll_interval)%N.
Proof.
  revert w. induction fuel as [|fuel IH]; intros w Hin Hlt Hfuel.
  - lia.
  - rewrite poll_S. case_bool_decide as Hfound; [|cbn; split; [done | lia]].
    set (w1 := elapse poll_interval w).
    assert (Hclock : clock w1 = (clock w + poll_interval)%N) by reflexivity.
    destruct (decide (is_Some (files w1 !! p))) as [Hstill|Hgone].
    + assert (Hahead : (clock w1 < d)%N).
      { destruct (decide (d <= clock w + poll_interval)%N) as [Hdue|]; [|lia].
        unfold w1 in Hstill.
        rewrite (elapse_files_gone _ d) in Hstill by assumption.
        by destruct Hstill. }
      destruct (IH w1) as [Hret Hbound]; [assumption | assumption | lia |].
      destruct (poll (S fuel) p w1) as [[o w'] t]. by split.
    + rewrite poll_S, bool_decide_eq_false_2 by assumption. cbn.
      split; [done | lia].
Qed.

(** With the file in place and no deletion of it ahead, the loop never
    returns. *)
Lemma poll_blocks (p : string) (fuel : nat) (w : World) :
  is_Some (files w !! p) ->
  (forall d, (d, p) ∈ supervisor w -> (d <= clock w)%N) ->
  (poll fuel p w).1.1 = Blocked.
Proof.
  revert w. induction fuel as [|fuel IH]; intros w Hfound Hpast; [done|].
  rewrite poll_S, bool_decide_eq_true_2 by assumption.
  specialize (IH (elapse poll_interval w)).
  destruct (poll fuel p _) as [[o w'] t]. cbn [fst] in *. apply IH.
  - by rewrite elapse_files_kept.
  - intros d Hd. apply Hpast in Hd. world_fields. lia.
Qed.

Lemma env_blind_bind {A B} (m : M A) (k : A -> M B) :
  env_blind m -> (forall a, env_blind (k a)) -> env_blind (bind m k).
Proof.
  intros Hm Hk e w. unfold bind. rewrite Hm.
  destruct (m w) as [[[a|err|] w1] t1]; try reflexivity.
  rewrite Hk. destruct (k a w1) as [[o w2] t2]. reflexivity.
Qed.

Lemma env_blind_finally {A} (m : M A) (c : M unit) :
  env_blind m -> env_blind c -> env_blind (finally m c).
Proof.
  intros Hm Hc e w. unfold finally. rewrite Hm.
  destruct (m w) as [[[a|err|] w1] t1]; try reflexivity;
    rewrite Hc; destruct (c w1) as [[[[]|err'|] w2] t2]; reflexivity.
Qed.

Lemma env_blind_ret {A} (a : A) : env_blind (ret a).
Proof. intros e w. reflexivity. Qed.

Lemma env_blind_emit (ev : event) : env_blind (emit ev).
Proof. intros e w. reflexivity. Qed.

Lemma env_blind_modify (f : World -> World) :
  (forall e w, f (set_environ e w) = set_environ e (f w)) ->
  env_blind (modify f).
Proof. intros Hf e w. unfold modify. rewrite Hf. reflexivity. Qed.

Lemma env_blind_io_check (op : io_op) : env_blind (io_check op).
Proof. intros e w. rewrite !io_check_run. cbn. case_decide; reflexivity. Qed.

Lemma env_blind_exists (p : string) : env_blind (exists_ p).
Proof. intros e w. reflexivity. Qed.

Lemma env_blind_sleep (ms : N) : env_blind (sleep ms).
Proof. intros e w. reflexivity. Qed.

Lemma env_blind_poll (fuel : nat) (p : string) : env_blind (poll fuel p).
Proof.
  induction fuel as [|fuel IH]; [intros e w; reflexivity|].
  cbn [poll]. apply env_blind_bind; [apply env_blind_exists|].
  intros [|]; [|apply env_blind_ret].
  apply env_blind_bind; [apply env_blind_sleep | intros _; apply IH].
Qed.

Lemma env_blind_write_signal (p : string) : env_blind (write_signal p).
Proof.
  unfold write_signal, with_open, open_w, write, flush, fsync, close.
  repeat first
    [ apply env_blind_emit | apply env_blind_io_check
    | apply env_blind_ret | apply env_blind_modify; reflexivity
    | apply env_blind_finally | apply env_blind_bind | intros ? ].
Qed.

(** A computation that does not look at the environment variables does
    not change them either. *)
Lemma env_blind_environ {A} (m : M A) (w : World) :
  env_blind m -> environ (m w).1.2 = environ w.
Proof.
  intros Hm. specialize (Hm (environ w) w).
  assert (Hw : set_environ (environ w) w = w) by (by destruct w).
  rewrite Hw in Hm. destruct (m w) as [[o w'] t].
  injection Hm as Hw'. cbn [fst snd]. rewrite Hw' at 1. reflexivity.
Qed.

(** X13. [make_checkpoint] reads the environment variables and never
    writes them: whatever its outcome, the environment after the call is
    the environment before it. *)
Lemma make_checkpoint_environ (fuel : nat) (w : World) :
  environ (make_checkpoint fuel w).1.2 = environ w.
Proof.
  destruct (environ w !! DVC_CHECKPOINT) as [v|] eqn:Hflag.
  - rewrite (make_checkpoint_supervised _ _ v) by assumption.
    destruct (found_root w) as [root|]; [|reflexivity]. cbn zeta.
    set (p := signal_path _).
    assert (Hblind : env_blind (write_signal p ;;; poll fuel p)).
    { apply env_blind_bind; [apply env_blind_write_signal|].
      intros _. apply env_blind_poll. }
    apply (env_blind_environ _ w) in Hblind.
    destruct ((write_signal p ;;; poll fuel p) w) as [[o w'] t]. exact Hblind.
  - unfold make_checkpoint, getenv, bind, get_world, ret. cbn.
    rewrite Hflag. reflexivity.
Qed.

(** [make_checkpoint] raises the repository-not-found error exactly in
    the supervised runs whose upward search finds nothing, whether or not
    the override is set. *)
Lemma make_checkpoint_not_found_iff (fuel : nat) (w : World) :
  (make_checkpoint fuel w).1.1 = Raised RepositoryNotFoundError <->
  is_Some (environ w !! DVC_CHECKPOINT) /\ found_root w = None.
Proof.
  destruct (environ w !! DVC_CHECKPOINT) as [v|] eqn:Hflag.
  - rewrite (make_checkpoint_supervised _ _ v) by assumption.
    destruct (found_root w) as [root|]; [|by split; eauto]. cbn zeta.
    set (p := signal_path _). unfold bind.
    destruct (io_fault w) as [op|] eqn:Hio.
    + destruct (write_signal_fault p w op Hio) as (w1 & t1 & -> & _).
      cbn. split; [discriminate | intros [_ ?]; discriminate].
    + rewrite write_signal_ok by assumption.
      destruct (poll_shape fuel p (signalled p w)) as [n Hn].
      destruct (poll fuel p _) as [[o w'] t]. cbn.
      destruct Hn as (_ & _ & [(-> & _)|(-> & _)]);
        (split; [discriminate | intros [_ ?]; discriminate]).
  - unfold make_checkpoint, getenv, bind, get_world, ret. cbn.
    rewrite Hflag. cbn. split; [discriminate | intros [[? ?] _]; discriminate].
Qed.

(** C1. Evaluating the code on a supervised run whose override
    [DVC_ROOT] is set while the working directory is in no repository:
    the upward search is performed before the override is consulted, and
    its failure ends the call with [RepositoryNotFoundError]; nothing is
    written. *)
Theorem make_checkpoint_searches_despite_override (fuel : nat) :
  environ outside_repo_with_override !! (@DVC_CHECKPOINT dvc_imports)
    = Some "1" /\
  environ outside_repo_with_override !! (@DVC_ROOT dvc_imports)
    = Some "/repo" /\
  @make_checkpoint dvc_imports fuel outside_repo_with_override =
    (Raised RepositoryNotFoundError, outside_repo_with_override,
     [EFindRoot]).
Proof. repeat split. Qed.

(** C2. When the variable [DVC_CHECKPOINT] is absent from the
    environment, [make_checkpoint] returns at once: the world it leaves is
    the world it found, whatever the file system and the override are, no
    event is produced and no error is raised. *)
Theorem make_checkpoint_unsupervised (fuel : nat) (w : World) :
  environ w !! DVC_CHECKPOINT = None ->
  make_checkpoint fuel w = (Returned tt, w, []).
Proof.
  intros Hflag. unfold make_checkpoint, getenv, bind, get_world, ret. cbn.
  rewrite Hflag. reflexivity.
Qed.


(** C5. In a supervised call that reaches the wait, checks of the signal
    file alternate with sleeps of 100 ms, and the call returns at the
    first check that misses the file. If the supervisor deletes the file
    at a time [d] after the call, the call returns, and does so less than
    100 ms after [d]; if the supervisor never deletes it, the call is
    still waiting after any number of checks. *)
Theorem make_checkpoint_wait (w : World) (v root : string) :
  environ w !! DVC_CHECKPOINT = Some v ->
  found_root w = Some root ->
  io_fault w = None ->
  let p := signal_path (resolved_root w root) in
  (forall fuel, exists n,
      let '(o, w', t) := make_checkpoint fuel w in
      clock w' = (clock w + poll_interval * N.of_nat n)%N /\
      ((o = Returned tt /\
        t = EFindRoot :: sync_trace p ++ rounds p n ++ [EExists p false]) \/
       (o = Blocked /\ n = fuel /\
        t = EFindRoot :: sync_trace p ++ rounds p n))) /\
  (forall d, (d, p) ∈ supervisor w -> (clock w < d)%N ->
     exists fuel0, forall fuel, fuel0 <= fuel ->
       (make_checkpoint fuel w).1.1 = Returned tt /\
       (clock (make_checkpoint fuel w).1.2 < d + poll_interval)%N) /\
  ((forall d, (d, p) ∈ supervisor w -> (d <= clock w)%N) ->
     forall fuel, (make_checkpoint fuel w).1.1 = Blocked).
Proof.
  intros Hflag Hroot Hio p.
  assert (Hrun : forall fuel,
    make_checkpoint fuel w =
    let '(o, w', t) := poll fuel p (signalled p w) in
    (o, w', EFindRoot :: sync_trace p ++ t)).
  { intros fuel. rewrite (make_checkpoint_supervised _ _ v) by assumption.
    rewrite Hroot. cbn zeta. fold p. unfold bind.
    rewrite write_signal_ok by assumption.
    destruct (poll fuel p _) as [[o w'] t]. reflexivity. }
  split; [|split].
  - intros fuel. rewrite Hrun.
    destruct (poll_shape fuel p (signalled p w)) as [n Hn]. exists n.
    destruct (poll fuel p _) as [[o w'] t].
    destruct Hn as (Hclock & _ & Hcases). split; [exact Hclock|].
    destruct Hcases as [(-> & _ & _ & ->)|(-> & -> & ->)]; [left | right];
      repeat split.
  - intros d Hin Hlt. exists (S (N.to_nat (d - clock w))).
    intros [|fuel] Hfuel; [lia|]. rewrite Hrun.
    destruct (poll_returns d p fuel (signalled p w)) as [Hret Hbound];
      [exact Hin | exact Hlt | cbn; unfold poll_interval; lia |].
    destruct (poll (S fuel) p _) as [[o w'] t]. by split.
  - intros Hpast fuel. rewrite Hrun.
    pose proof (poll_blocks p fuel (signalled p w)) as Hblocked.
    destruct (poll fuel p _) as [[o w'] t]. apply Hblocked.
    + cbn. rewrite lookup_insert_eq. by eexists.
    + exact Hpast.
Qed.

(** C9. Two environments that both define [DVC_CHECKPOINT] and differ only
    in its value give the same outcome, the same trace and the same final
    files, disk and clock: the value is never looked at. The variable is
    not the one of the override. *)
Theorem supervision_flag_value_ignored
    (fuel : nat) (w : World) (v1 v2 : string) :
  DVC_CHECKPOINT <> DVC_ROOT ->
  behaviour (make_checkpoint fuel
               (set_environ (<[DVC_CHECKPOINT := v1]> (environ w)) w)) =
  behaviour (make_checkpoint fuel
               (set_environ (<[DVC_CHECKPOINT := v2]> (environ w)) w)).
Proof.
  intros Hne.
  rewrite (make_checkpoint_supervised _ _ v1) by apply lookup_insert_eq.
  rewrite (make_checkpoint_supervised _ _ v2) by apply lookup_insert_eq.
  cbn [found_root set_environ]. destruct (found_root w) as [root|];
    [|reflexivity].
  assert (Hroot : forall v,
    resolved_root (set_environ (<[DVC_CHECKPOINT := v]> (environ w)) w) root
    = resolved_root w root).
  { intros v. unfold resolved_root. cbn [environ set_environ].
    by rewrite lookup_insert_ne. }
  rewrite !Hroot. cbn zeta. set (p := signal_path _).
  assert (Hblind : env_blind (write_signal p ;;; poll fuel p)).
  { apply env_blind_bind; [apply env_blind_write_signal|].
    intros _. apply env_blind_poll. }
  rewrite !Hblind. destruct ((write_signal p ;;; poll fuel p) w)
    as [[o w'] t]. reflexivity.
Qed.

End CheckpointFacts.

Lemma make_checkpoint_unsupervised_witness :
  environ unsupervised !! "DVC_CHECKPOINT" = None /\
  @Checkpoint.make_checkpoint dvc_imports 5 unsupervised =
    (Checkpoint.Returned tt, unsupervised, []).
Proof.
  split; [reflexivity|].
  apply (@make_checkpoint_unsupervised dvc_imports). reflexivity.
Defined.


Lemma make_checkpoint_wait_witness :
  environ supervised_in_repo !! "DVC_CHECKPOINT" = Some "" /\
  found_root supervised_in_repo = Some "/repo" /\
  io_fault supervised_in_repo = None /\
  (250%N, "/repo/.dvc/tmp/DVC_CHECKPOINT") ∈ supervisor supervised_in_repo /\
  (clock supervised_in_repo < 250)%N /\
  exists fuel0, forall fuel, fuel0 <= fuel ->
    (@Checkpoint.make_checkpoint dvc_imports fuel supervised_in_repo).1.1
      = Checkpoint.Returned tt /\
    (Checkpoint.clock
       (@Checkpoint.make_checkpoint dvc_imports fuel supervised_in_repo).1.2
     < 250 + Checkpoint.poll_interval)%N.
Proof.
  split; [reflexivity|]. split; [reflexivity|]. split; [reflexivity|].
  split; [left|]. split; [reflexivity|].
  destruct (@make_checkpoint_wait dvc_imports supervised_in_repo "" "/repo"
              eq_refl eq_refl eq_refl) as (_ & Hdeleted & _).
  apply (Hdeleted 250%N).
  - vm_compute. left.
  - reflexivity.
Defined.

Lemma supervision_flag_value_ignored_witness :
  "DVC_CHECKPOINT" <> "DVC_ROOT" /\
  behaviour (@Checkpoint.make_checkpoint dvc_imports 5
               (Checkpoint.set_environ
                  (<["DVC_CHECKPOINT" := "1"]> (environ supervised_in_repo))
                  supervised_in_repo)) =
  behaviour (@Checkpoint.make_checkpoint dvc_imports 5
               (Checkpoint.set_environ
                  (<["DVC_CHECKPOINT" := ""]> (environ supervised_in_repo))
                  supervised_in_repo)).
Proof.
  split; [discriminate|].
  apply (@supervision_flag_value_ignored dvc_imports). discriminate.
Defined.


(** * Properties of [_postprocess] *)

Import Table.

Section TableFacts.

Lemma normalize_spec_idem (v : value) :
  normalize_spec (normalize_spec v) = normalize_spec v.
Proof.
  destruct v as [| | | | |t]; try reflexivity.
  cbn. destruct (PyFloat.float_of_str (plain t)); reflexivity.
Qed.

Lemma normalize_spec_not_text (v : value) : is_text (normalize_spec v) = false.
Proof.
  destruct v as [| | | | |t]; try reflexivity.
  cbn. destruct (PyFloat.float_of_str (plain t)); reflexivity.
Qed.

(** One visit rewrites the cell of its key by the rule and leaves the
    other cells alone. *)
Lemma visit_lookup (exp_row : dict) (k j : string) :
  visit exp_row k !! j =
  if decide (j = k) then normalize_spec <$> exp_row !! j else exp_row !! j.
Proof.
  unfold visit. destruct (decide (j = k)) as [->|Hne].
  - destruct (exp_row !! k) as [v|] eqn:Hk; [|by rewrite Hk].
    destruct v as [| | | | |t]; try by rewrite Hk.
    cbn. unfold str. destruct (PyFloat.float_of_str (plain t));
      by rewrite lookup_insert_eq.
  - destruct (exp_row !! k) as [[| | | | |t]|]; try reflexivity.
    cbn zeta. destruct (PyFloat.float_of_str (str t));
      by rewrite lookup_insert_ne.
Qed.

Lemma foldl_visit_lookup (ks : list string) (exp_row : dict) (j : string) :
  foldl visit exp_row ks !! j =
  if decide (j ∈ ks) then normalize_spec <$> exp_row !! j else exp_row !! j.
Proof.
  revert exp_row. induction ks as [|k ks IH]; intros exp_row.
  - cbn. rewrite decide_False; [reflexivity | apply not_elem_of_nil].
  - cbn [foldl]. rewrite IH, visit_lookup.
    destruct (decide (j = k)) as [->|Hne].
    + rewrite (decide_True (P := k ∈ k :: ks)) by left.
      destruct (decide (k ∈ ks)); [|reflexivity].
      destruct (exp_row !! k) as [v|]; [|reflexivity].
      cbn. by rewrite normalize_spec_idem.
    + destruct (decide (j ∈ ks)) as [Hin|Hin].
      * rewrite decide_True by (by right). reflexivity.
      * rewrite decide_False; [reflexivity|].
        intros [?|?]%elem_of_cons; congruence.
Qed.

(** The in-place loop over a row computes the cell-wise rule. *)
Lemma postprocess_row_fmap (exp_row : dict) :
  postprocess_row exp_row = normalize_spec <$> exp_row.
Proof.
  apply map_eq. intros j. unfold postprocess_row.
  rewrite foldl_visit_lookup, lookup_fmap.
  destruct (decide (j ∈ (map_to_list exp_row).*1)) as [Hin|Hin];
    [reflexivity|].
  destruct (exp_row !! j) as [v|] eqn:Hj; [|reflexivity].
  exfalso. apply Hin. apply list_elem_of_fmap. exists (j, v).
  split; [reflexivity|]. by apply elem_of_map_to_list.
Qed.

Lemma postprocess_row_idem (exp_row : dict) :
  postprocess_row (postprocess_row exp_row) = postprocess_row exp_row.
Proof.
  rewrite !postprocess_row_fmap. apply map_eq. intros j.
  rewrite !lookup_fmap. destruct (exp_row !! j) as [v|]; [|reflexivity].
  cbn. by rewrite normalize_spec_idem.
Qed.

Lemma postprocess_ref_lookup (h : heap) (r l : ref) :
  postprocess_ref h r !! l =
  if decide (l = r) then postprocess_row <$> h !! l else h !! l.
Proof.
  unfold postprocess_ref. destruct (decide (l = r)) as [->|Hne].
  - destruct (h !! r) as [row|] eqn:Hr; [|by rewrite Hr].
    by rewrite lookup_insert_eq.
  - destruct (h !! r); [by rewrite lookup_insert_ne | reflexivity].
Qed.

(** The loop over the rows rewrites the dictionaries the list refers to,
    once however often they are listed, and no other. *)
Lemma postprocess_heap_lookup (exp_rows : list ref) (h : heap) (l : ref) :
  foldl postprocess_ref h exp_rows !! l =
  if decide (l ∈ exp_rows) then postprocess_row <$> h !! l else h !! l.
Proof.
  revert h. induction exp_rows as [|r rows IH]; intros h.
  - cbn. rewrite decide_False; [reflexivity | apply not_elem_of_nil].
  - cbn [foldl]. rewrite IH, postprocess_ref_lookup.
    destruct (decide (l = r)) as [->|Hne].
    + rewrite (decide_True (P := r ∈ r :: rows)) by left.
      destruct (decide (r ∈ rows)); [|reflexivity].
      destruct (h !! r) as [row|]; [|reflexivity].
      cbn. by rewrite postprocess_row_idem.
    + destruct (decide (l ∈ rows)) as [Hin|Hin].
      * rewrite decide_True by (by right). reflexivity.
      * rewrite decide_False; [reflexivity|].
        intros [?|?]%elem_of_cons; congruence.
Qed.

Lemma row_at_postprocess (exp_rows : list ref) (h : heap) (i : nat) :
  row_at (_postprocess exp_rows h) i =
  normalize_row <$> row_at (exp_rows, h) i.
Proof.
  unfold row_at, _postprocess. cbn [fst snd].
  destruct (exp_rows !! i) as [r|] eqn:Hi; [|reflexivity].
  cbn. rewrite postprocess_heap_lookup, decide_True
    by (by eapply list_elem_of_lookup_2).
  destruct (h !! r) as [row|]; [|reflexivity].
  cbn. by rewrite postprocess_row_fmap.
Qed.

Lemma cell_postprocess (exp_rows : list ref) (h : heap)
    (i : nat) (k : string) :
  cell (_postprocess exp_rows h) i k =
  normalize_spec <$> cell (exp_rows, h) i k.
Proof.
  unfold cell. rewrite row_at_postprocess.
  destruct (row_at (exp_rows, h) i) as [row|]; [|reflexivity].
  cbn. unfold normalize_row. by rewrite lookup_fmap.
Qed.

(** C3. After [_postprocess], every cell of the table holds what the
    normalisation rule makes of the value it held before: a rich text whose
    plain string parses as a float holds that float, a rich text whose
    plain string does not parse holds the plain string, any other value is
    the same. On the sample table, rich "0.825" becomes the float 0.825,
    rich "abc" becomes the string "abc", and the integer, the [None], the
    float and the plain string "0.825" stay as they are. *)
Theorem postprocess_cell_rule :
  (forall (exp_rows : list ref) (h : heap) (i : nat) (k : string),
      cell (_postprocess exp_rows h) i k =
      normalize_spec <$> cell (exp_rows, h) i k) /\
  (forall t x, PyFloat.float_of_str (plain t) = Some x ->
               normalize_spec (VText t) = VFloat x) /\
  (forall t, PyFloat.float_of_str (plain t) = None ->
             normalize_spec (VText t) = VStr (plain t)) /\
  (forall v, is_text v = false -> normalize_spec v = v) /\
  let t := _postprocess sample_rows sample_heap in
  cell t 0 "a" = Some (VFloat float_0_825) /\
  cell t 1 "a" = Some (VStr "abc") /\
  cell t 0 "b" = Some (VInt 2) /\
  cell t 0 "c" = Some (VStr "0.825") /\
  cell t 1 "b" = Some VNone /\
  cell t 1 "c" = Some (VFloat float_1_5) /\
  cell t 2 "a" = Some (VStr "abc").
Proof.
  split; [exact cell_postprocess|].
  split; [intros t x Hx; cbn; by rewrite Hx|].
  split; [intros t Ht; cbn; by rewrite Ht|].
  split; [by intros [| | | | |t]|].
  cbn zeta. repeat split; vm_compute; reflexivity.
Qed.

(** C6. Applying [_postprocess] to its own result changes nothing: the
    list is the same and so is every dictionary of the heap. *)
Theorem postprocess_idempotent (exp_rows : list ref) (h : heap) :
  let t := _postprocess exp_rows h in
  _postprocess t.1 t.2 = t.
Proof.
  cbn zeta. unfold _postprocess. cbn [fst snd]. f_equal.
  apply map_eq. intros l. rewrite !postprocess_heap_lookup.
  destruct (decide (l ∈ exp_rows)); [|reflexivity].
  destruct (h !! l) as [row|]; [|reflexivity].
  cbn. by rewrite postprocess_row_idem.
Qed.

(** C7. [_postprocess] returns the list it was given, so the table has
    the same number of rows; the heap holds dictionaries at the same
    references; and the row at every index has the key set it had. *)
Theorem postprocess_shape (exp_rows : list ref) (h : heap) :
  let t := _postprocess exp_rows h in
  t.1 = exp_rows /\
  length t.1 = length exp_rows /\
  dom t.2 = dom h /\
  forall i, keys <$> row_at t i = keys <$> row_at (exp_rows, h) i.
Proof.
  cbn zeta. split; [reflexivity|]. split; [reflexivity|]. split.
  - apply set_eq. intros l. rewrite !elem_of_dom.
    unfold _postprocess. cbn [snd]. rewrite postprocess_heap_lookup.
    destruct (decide (l ∈ exp_rows)); [|reflexivity].
    by rewrite fmap_is_Some.
  - intros i. rewrite row_at_postprocess.
    destruct (row_at (exp_rows, h) i) as [row|]; [|reflexivity].
    cbn. unfold keys, normalize_row. by rewrite dom_fmap_L.
Qed.

(** C10. A cell holding a rich text ends up holding a number exactly when
    Python's [float] accepts its plain string. On the sample row this turns
    "1e3" into 1000.0, "  1.5 " into 1.5, "nan" into the NaN and "inf" and
    "Infinity" into the positive infinity, while "0x10" is kept as a
    string. *)
Theorem postprocess_numbers_are_float_strings
    (exp_rows : list ref) (h : heap) (i : nat) (k : string) (t : Text) :
  cell (exp_rows, h) i k = Some (VText t) ->
  ((exists x, cell (_postprocess exp_rows h) i k = Some (VFloat x)) <->
   is_Some (PyFloat.float_of_str (str t))) /\
  let n := _postprocess numeric_rows numeric_heap in
  cell n 0 "exp" = Some (VFloat float_1000) /\
  cell n 0 "spaces" = Some (VFloat float_1_5) /\
  cell n 0 "nan" = Some (VFloat S754_nan) /\
  cell n 0 "inf" = Some (VFloat (S754_infinity false)) /\
  cell n 0 "infinity" = Some (VFloat (S754_infinity false)) /\
  cell n 0 "hex" = Some (VStr "0x10").
Proof.
  intros Hcell. split.
  - rewrite cell_postprocess, Hcell. cbn. unfold str.
    destruct (PyFloat.float_of_str (plain t)) as [x|]; split.
    + intros _. by eexists.
    + intros _. by eexists.
    + intros [x Hx]. discriminate.
    + intros [x Hx]. discriminate.
  - cbn zeta. repeat split; vm_compute; reflexivity.
Qed.

End TableFacts.

Lemma postprocess_cell_rule_witness :
  PyFloat.float_of_str "0.825" = Some float_0_825 /\
  normalize_spec (rich "0.825") = VFloat float_0_825.
Proof.
  split; [vm_compute; reflexivity|].
  apply (proj1 (proj2 postprocess_cell_rule)). vm_compute. reflexivity.
Defined.

Lemma postprocess_numbers_are_float_strings_witness :
  cell (numeric_rows, numeric_heap) 0 "exp" = Some (rich "1e3") /\
  ((exists x,
      cell (_postprocess numeric_rows numeric_heap) 0 "exp" = Some (VFloat x))
   <-> is_Some (PyFloat.float_of_str "1e3")).
Proof.
  split; [reflexivity|].
  apply (postprocess_numbers_are_float_strings numeric_rows numeric_heap
           0 "exp" (mkText "1e3" "bold" [])).
  reflexivity.
Defined.

(** * Properties of [exp_save] *)

Import ExpSave.

Section ExpSaveFacts.
Local Open Scope save_scope.

Lemma experiments_save_held (name : option string) (force : bool)
    (untracked : option (list string)) (s : Store) :
  held (experiments_save name force untracked s).1.2 = held s.
Proof.
  unfold experiments_save, bind, get. cbn.
  destruct (repository s) as [r|]; [|reflexivity].
  destruct (_ && _); [reflexivity|].
  destruct (pending_failure r); reflexivity.
Qed.

Lemma experiments_save_exists (name : option string) (force : bool)
    (untracked : option (list string)) (s : Store) :
  (exists n, (experiments_save name force untracked s).1.1
             = inl (ExperimentExistsError n)) <->
  collides s name /\ force = false.
Proof.
  unfold experiments_save, collides, bind, get. cbn.
  destruct (repository s) as [r|] eqn:Hr.
  - destruct (bool_decide _ && negb force) eqn:Hguard.
    + apply andb_true_iff in Hguard as [Hcol Hforce].
      apply bool_decide_eq_true in Hcol as [[n ->] Hn]. cbn in Hn.
      apply negb_true_iff in Hforce. split; [|by eexists].
      intros _. split; [|assumption]. by exists r, n.
    + split.
      * intros [n Hn]. destruct (pending_failure r); discriminate.
      * intros [(r' & n & [= <-] & -> & Hn) ->]. exfalso.
        rewrite andb_true_r in Hguard.
        apply bool_decide_eq_false in Hguard. apply Hguard.
        split; [by eexists | exact Hn].
  - split.
    + intros [n Hn]. discriminate.
    + intros [(r & n & Hrepo & _) _]. discriminate.
Qed.

(** The [with] statement around a manager that does not swallow. *)
Lemma with_run {V A} (ctor : M (manager V)) (body : V -> M A)
    s mgr s0 t0 v s1 t1 o s2 t2 s3 t3 :
  ctor s = (inr mgr, s0, t0) ->
  enter mgr s0 = (inr v, s1, t1) ->
  body v s1 = (o, s2, t2) ->
  (forall exc, exit mgr exc s2 = (inr false, s3, t3)) ->
  with_ ctor body s = (sum_map id Some o, s3, t0 ++ t1 ++ t2 ++ t3).
Proof.
  intros Hctor Henter Hbody Hexit. unfold with_, bind, try_.
  rewrite Hctor, Henter, Hbody.
  destruct o as [e|a]; rewrite Hexit; cbn; by rewrite ?app_nil_r.
Qed.

(** The run of [exp_save] in a repository, in terms of the run of the
    save inside the context. *)
Lemma exp_save_run (name : option string) (force : bool)
    (untracked : option (list string)) (s : Store) (r : Repository) :
  repository s = Some r ->
  exp_save name force untracked s =
  let '(o1, s1, t1) := experiments_save name force untracked (acquired s) in
  (sum_map id Some o1, mkStore (repository s1) (pred (held s1)),
   EAcquire :: t1 ++ [ERelease]).
Proof.
  intros Hr.
  destruct (experiments_save name force untracked (acquired s))
    as [[o1 s1] t1] eqn:Hsave.
  unfold exp_save.
  rewrite (with_run _ _ s
             {| enter :=
                  emit EAcquire ;;;
                  s <- get ;; put (mkStore (repository s) (S (held s)));
                exit := fun _ =>
                  emit ERelease ;;;
                  s <- get ;; put (mkStore (repository s) (pred (held s))) ;;;
                  ret false |}
             s [] tt (acquired s) [EAcquire] o1 s1 t1
             (mkStore (repository s1) (pred (held s1))) [ERelease]).
  - reflexivity.
  - unfold Repo, bind, get. rewrite Hr. reflexivity.
  - reflexivity.
  - exact Hsave.
  - intros exc. reflexivity.
Qed.

(** C8. [exp_save] opens the repository context, calls the save of the
    experiments subsystem inside it and leaves it again on the way out,
    whether the save returned or failed: the number of contexts held is the
    one before the call, and the trace is acquire, what the save did,
    release. It returns the revision the save returned and fails with the
    error the save failed with. It fails with [ExperimentExistsError]
    exactly when the name given is the name of an existing experiment and
    [force] is false. *)
Theorem exp_save_scoped_delegation (name : option string) (force : bool)
    (untracked : option (list string)) (s : Store) :
  let '(o, s', t) := exp_save name force untracked s in
  held s' = held s /\
  match repository s with
  | None => o = inl RepositoryNotFoundError /\ s' = s /\ t = []
  | Some _ =>
      let '(o1, s1, t1) :=
        experiments_save name force untracked (acquired s) in
      o = sum_map id Some o1 /\
      repository s' = repository s1 /\
      t = EAcquire :: t1 ++ [ERelease]
  end /\
  ((exists n, o = inl (ExperimentExistsError n)) <->
   collides s name /\ force = false).
Proof.
  destruct (repository s) as [r|] eqn:Hr.
  - rewrite (exp_save_run _ _ _ _ r) by assumption.
    pose proof (experiments_save_held name force untracked (acquired s))
      as Hheld.
    pose proof (experiments_save_exists name force untracked (acquired s))
      as Hexists.
    destruct (experiments_save name force untracked (acquired s))
      as [[o1 s1] t1]. unfold collides in *.
    cbn [fst snd held repository acquired] in *.
    rewrite Hheld. split; [reflexivity|]. split; [by repeat split|].
    rewrite <- Hexists. destruct o1 as [e|rev]; cbn.
    + split; intros [n [= ->]]; by eexists.
    + split; intros [n [=]].
  - unfold exp_save, with_, Repo, bind, get. cbn. rewrite Hr. cbn.
    split; [reflexivity|]. split; [done|]. split.
    + intros [n Hn]. discriminate.
    + intros [(r & n & Hrepo & _) _]. congruence.
Qed.

End ExpSaveFacts.

(** * Further properties of [make_checkpoint] *)

Import Checkpoint Footprint.

Section FootprintFacts.
Local Open Scope checkpoint_scope.
Context `{Imports}.

Ltac fields :=
  cbn [environ found_root files disk buffers io_fault clock supervisor
       set_environ set_files set_disk set_buffers set_clock
       truncate buffer drain sync release elapse fst snd].

Local Arguments io_check : simpl never.

(** *** Traces confined to one path *)








Lemma open_w_value (p : string) (w w1 : World) (f : file) (t1 : list event) :
  open_w p w = (Returned f, w1, t1) -> f = mkFile p.
Proof.
  unfold open_w, bind, emit, modify, ret. cbn. rewrite io_check_run.
  case_decide; cbn; congruence.
Qed.



(** *** Files left alone *)

Lemma spares_bind (q : string) {A B} (m : M A) (k : A -> M B) :
  spares q m -> (forall a, spares q (k a)) -> spares q (bind m k).
Proof.
  intros Hm Hk w Hsup. destruct (Hm w Hsup) as (Hf & Hd & Hs). unfold bind.
  destruct (m w) as [[[a|e|] w1] t1]; cbn [fst snd] in *;
    try (by repeat split).
  destruct (Hk a w1) as (Hf' & Hd' & Hs'); [by rewrite Hs|].
  destruct (k a w1) as [[o w2] t2]. cbn [fst snd] in *.
  rewrite Hf', Hd', Hs'. by repeat split.
Qed.

Lemma spares_finally (q : string) {A} (m : M A) (c : M unit) :
  spares q m -> spares q c -> spares q (finally m c).
Proof.
  intros Hm Hc w Hsup. destruct (Hm w Hsup) as (Hf & Hd & Hs).
  unfold finally.
  destruct (m w) as [[[a|e|] w1] t1]; cbn [fst snd] in *;
    try (by repeat split);
    (destruct (Hc w1) as (Hf' & Hd' & Hs'); [by rewrite Hs|]);
    destruct (c w1) as [[[[]|e'|] w2] t2]; cbn [fst snd] in *;
    rewrite Hf', Hd', Hs'; by repeat split.
Qed.

Lemma spares_still (q : string) {A} (m : M A) :
  (forall w, (m w).1.2 = w) -> spares q m.
Proof. intros Hm w _. rewrite Hm. by repeat split. Qed.

Lemma spares_io_check (q : string) (op : io_op) : spares q (io_check op).
Proof.
  apply spares_still. intros w. rewrite io_check_run. reflexivity.
Qed.

Lemma spares_modify (q : string) (f : World -> World) :
  (forall w, (forall d, (d, q) ∉ supervisor w) ->
     files (f w) !! q = files w !! q /\ disk (f w) !! q = disk w !! q /\
     supervisor (f w) = supervisor w) ->
  spares q (modify f).
Proof. intros Hf w Hsup. exact (Hf w Hsup). Qed.

Lemma spares_truncate (p q : string) : q <> p -> spares q (modify (truncate p)).
Proof.
  intros Hne. apply spares_modify. intros w _. fields.
  by rewrite lookup_insert_ne.
Qed.

Lemma spares_buffer (p q d : string) : spares q (modify (buffer p d)).
Proof. apply spares_modify. intros w _. by fields. Qed.

Lemma spares_drain (p q : string) : q <> p -> spares q (modify (drain p)).
Proof.
  intros Hne. apply spares_modify. intros w _. fields.
  destruct (buffers w !! p); [by rewrite lookup_alter_ne | done].
Qed.

Lemma spares_sync (p q : string) : q <> p -> spares q (modify (sync p)).
Proof.
  intros Hne. apply spares_modify. intros w _. fields.
  destruct (files w !! p); [by rewrite lookup_insert_ne | done].
Qed.

Lemma spares_release (p q : string) : q <> p -> spares q (modify (release p)).
Proof.
  intros Hne. apply spares_modify. intros w _. unfold release. cbn zeta.
  fields. destruct (buffers w !! p); [by rewrite lookup_alter_ne | done].
Qed.

Lemma spares_elapse (q : string) (ms : N) : spares q (modify (elapse ms)).
Proof.
  apply spares_modify. intros w Hsup. fields.
  set (gone := List.filter _ _).
  assert (Hout : q ∉ gone.*2).
  { intros ([d q'] & Hq & Hin)%list_elem_of_fmap. cbn in Hq. subst q'.
    apply list_elem_of_In, filter_In in Hin as [Hin _].
    by apply list_elem_of_In, Hsup in Hin. }
  rewrite !lookup_foldr_unlink, !decide_False by assumption. done.
Qed.

Ltac spare :=
  repeat first
    [ apply spares_io_check | apply spares_truncate; assumption
    | apply spares_buffer | apply spares_drain; assumption
    | apply spares_sync; assumption | apply spares_release; assumption
    | apply spares_elapse
    | apply spares_still; reflexivity
    | apply spares_finally | apply spares_bind | intros ? ].

Lemma spares_bind_value (q : string) {A B} (m : M A) (k : A -> M B)
    (P : A -> Prop) :
  spares q m ->
  (forall w a w1 t1, m w = (Returned a, w1, t1) -> P a) ->
  (forall a, P a -> spares q (k a)) ->
  spares q (bind m k).
Proof.
  intros Hm HP Hk w Hsup. destruct (Hm w Hsup) as (Hf & Hd & Hs).
  specialize (HP w). unfold bind.
  destruct (m w) as [[[a|e|] w1] t1]; cbn [fst snd] in *;
    try (by repeat split).
  destruct (Hk a (HP a w1 t1 eq_refl) w1) as (Hf' & Hd' & Hs');
    [by rewrite Hs|].
  destruct (k a w1) as [[o w2] t2]. cbn [fst snd] in *.
  rewrite Hf', Hd', Hs'. by repeat split.
Qed.

Lemma spares_write_signal (p q : string) : q <> p -> spares q (write_signal p).
Proof.
  intros Hne. unfold write_signal, with_open.
  apply (spares_bind_value q _ _ (fun f => f = mkFile p)).
  - unfold open_w. spare.
  - intros w a w1 t1. apply open_w_value.
  - intros f ->. unfold write, flush, fsync, close. cbn [fpath]. spare.
Qed.

Lemma spares_poll (fuel : nat) (p q : string) : spares q (poll fuel p).
Proof.
  induction fuel as [|fuel IH]; [apply spares_still; reflexivity|].
  cbn [poll]. apply spares_bind; [apply spares_still; reflexivity|].
  intros [|]; [|apply spares_still; reflexivity].
  apply spares_bind; [unfold sleep; spare | intros _; exact IH].
Qed.

(** *** Runs that fail in the file system *)

Lemma open_w_run (p : string) (w : World) :
  open_w p w =
  if decide (io_fault w = Some OpOpen) then (Raised IOError, w, [EOpen p])
  else (Returned (mkFile p), truncate p w, [EOpen p]).
Proof.
  unfold open_w, bind, emit, modify, ret. cbn. rewrite io_check_run.
  case_decide; reflexivity.
Qed.

Lemma write_run (f : file) (d : string) (w : World) :
  write f d w =
  if decide (io_fault w = Some OpWrite)
  then (Raised IOError, w, [EWrite (fpath f) d])
  else (Returned tt, buffer (fpath f) d w, [EWrite (fpath f) d]).
Proof.
  unfold write, bind, emit, modify, ret. cbn. rewrite io_check_run.
  case_decide; reflexivity.
Qed.

Lemma flush_run (f : file) (w : World) :
  flush f w =
  if decide (io_fault w = Some OpFlush)
  then (Raised IOError, w, [EFlush (fpath f)])
  else (Returned tt, drain (fpath f) w, [EFlush (fpath f)]).
Proof.
  unfold flush, bind, emit, modify, ret. cbn. rewrite io_check_run.
  case_decide; reflexivity.
Qed.

Lemma fsync_run (f : file) (w : World) :
  fsync f w =
  if decide (io_fault w = Some OpFsync)
  then (Raised IOError, w, [EFsync (fpath f)])
  else (Returned tt, sync (fpath f) w, [EFsync (fpath f)]).
Proof.
  unfold fsync, bind, emit, modify, ret. cbn. rewrite io_check_run.
  case_decide; reflexivity.
Qed.

Lemma write_signal_failed (p : string) (op : io_op) (w : World) :
  io_fault w = Some op ->
  write_signal p w = (Raised IOError, failed_world p op w, failed_trace p op).
Proof.
  intros Hio. unfold write_signal, with_open, finally, bind.
  rewrite open_w_run, Hio.
  destruct op; (case_decide; [|congruence]) || (case_decide; [congruence|]);
    try reflexivity;
    rewrite write_run; fields; rewrite Hio;
    (case_decide; [|congruence]) || (case_decide; [congruence|]);
    try reflexivity;
    rewrite flush_run; fields; rewrite Hio;
    (case_decide; [|congruence]) || (case_decide; [congruence|]);
    try reflexivity;
    rewrite fsync_run; fields; rewrite Hio;
    (case_decide; [|congruence]); reflexivity.
Qed.

(** *** Returning from the wait *)

Lemma elapse_files_lost (ms : N) (p : string) (w : World) :
  is_Some (files w !! p) ->
  files (elapse ms w) !! p = None ->
  exists d, (d, p) ∈ supervisor w /\ (clock w < d)%N /\ (d <= clock w + ms)%N.
Proof.
  intros [c Hc]. fields. rewrite lookup_foldr_unlink.
  case_decide as Hin; [intros _|congruence].
  apply list_elem_of_fmap in Hin as ([d q] & Hq & Hin). cbn in Hq. subst q.
  apply list_elem_of_In, filter_In in Hin as [Hin Hdue].
  apply list_elem_of_In in Hin. unfold due in Hdue. cbn [fst] in Hdue.
  apply andb_true_iff in Hdue as [Hlt Hle].
  apply N.ltb_lt in Hlt. apply N.leb_le in Hle. by exists d.
Qed.

(** A loop that starts with the file in place returns only after a
    deletion by the supervisor. *)
Lemma poll_returned (fuel : nat) (p : string) (w : World) :
  is_Some (files w !! p) ->
  (poll fuel p w).1.1 = Returned tt ->
  exists d, (d, p) ∈ supervisor w /\ (clock w < d)%N /\
            (d <= clock (poll fuel p w).1.2)%N.
Proof.
  revert w. induction fuel as [|fuel IH]; intros w Hfound; [discriminate|].
  rewrite poll_S, bool_decide_eq_true_2 by assumption.
  set (w1 := elapse poll_interval w).
  destruct (decide (is_Some (files w1 !! p))) as [Hstill|Hgone].
  - specialize (IH w1 Hstill). destruct (poll fuel p w1) as [[o w'] t].
    cbn [fst snd] in *. intros Hret.
    destruct (IH Hret) as (d & Hin & Hlt & Hle). exists d.
    split; [exact Hin|]. split; [|exact Hle].
    unfold w1 in Hlt. fields. cbn [clock elapse set_clock] in Hlt. lia.
  - apply eq_None_not_Some in Hgone.
    destruct (elapse_files_lost _ _ _ Hfound Hgone) as (d & Hin & Hlt & Hle).
    pose proof (poll_shape fuel p w1) as [n Hn].
    destruct (poll fuel p w1) as [[o w'] t]. cbn [fst snd]. intros _.
    destruct Hn as (Hclock & _). exists d.
    split; [exact Hin|]. split; [exact Hlt|].
    rewrite Hclock. unfold w1. cbn [clock elapse set_clock]. lia.
Qed.

(** X1. A supervised call in which the file system fails at open, write,
    flush or fsync raises [IOError] at once: it never checks for the file
    and never sleeps, and nothing reaches the disk. When the failure comes
    after the open, the [with] statement has closed the file object and
    the empty signal file is left behind; when the open itself fails, the
    files are as before. *)
Theorem make_checkpoint_io_failure
    (fuel : nat) (w : World) (v root : string) (op : io_op) :
  environ w !! DVC_CHECKPOINT = Some v ->
  found_root w = Some root ->
  io_fault w = Some op ->
  let p := signal_path (resolved_root w root) in
  let '(o, w', t) := make_checkpoint fuel w in
  o = Raised IOError /\
  t = EFindRoot :: failed_trace p op /\
  clock w' = clock w /\
  disk w' = disk w /\
  (op = OpOpen -> files w' = files w) /\
  (op <> OpOpen -> files w' !! p = Some "" /\ buffers w' !! p = None).
Proof.
  intros Hflag Hroot Hio p.
  rewrite (make_checkpoint_supervised _ _ v) by assumption.
  rewrite Hroot. cbn zeta. fold p. unfold bind.
  rewrite (write_signal_failed p op) by assumption.
  split; [reflexivity|]. split; [reflexivity|].
  destruct op; unfold failed_world, release; cbn zeta; fields;
    (split; [reflexivity|]); (split; [reflexivity|]);
    (split; [congruence || done|]); intros Hop; try congruence;
    rewrite ?lookup_alter_eq, ?lookup_insert_eq;
    cbn [fmap option_fmap option_map];
    rewrite ?lookup_alter_eq, ?lookup_insert_eq, ?lookup_delete_eq;
    done.
Qed.

(** X2. A supervised call returns only after the supervisor has deleted
    the signal file: some deletion of that file falls between the start of
    the call and the moment it returns, and on return the file does not
    exist. *)
Theorem make_checkpoint_returns_after_deletion
    (fuel : nat) (w : World) (v : string) :
  environ w !! DVC_CHECKPOINT = Some v ->
  (make_checkpoint fuel w).1.1 = Returned tt ->
  exists root d,
    let p := signal_path (resolved_root w root) in
    found_root w = Some root /\
    (d, p) ∈ supervisor w /\
    (clock w < d)%N /\
    (d <= clock (make_checkpoint fuel w).1.2)%N /\
    files (make_checkpoint fuel w).1.2 !! p = None.
Proof.
  intros Hflag. rewrite (make_checkpoint_supervised _ _ v) by assumption.
  destruct (found_root w) as [root|] eqn:Hroot; [|discriminate].
  cbn zeta. set (p := signal_path _). unfold bind.
  destruct (io_fault w) as [op|] eqn:Hio.
  { rewrite (write_signal_failed p op) by assumption. discriminate. }
  rewrite write_signal_ok by assumption.
  pose proof (poll_returned fuel p (signalled p w)) as Hret.
  pose proof (poll_shape fuel p (signalled p w)) as [n Hn].
  destruct (poll fuel p (signalled p w)) as [[o w'] t]. cbn [fst snd] in *.
  intros ->. destruct Hret as (d & Hin & Hlt & Hle); [|reflexivity|].
  { unfold signalled. cbn [files]. rewrite lookup_insert_eq. by eexists. }
  exists root, d. cbn zeta. split; [reflexivity|].
  split; [exact Hin|]. split; [exact Hlt|]. split; [exact Hle|].
  destruct Hn as (_ & _ & [(_ & _ & Hgone & _)|(Hblocked & _)]);
    [exact Hgone | discriminate].
Qed.

(** X3. Whatever its outcome, [make_checkpoint] leaves every file other
    than the signal file as it found it, for other processes and on disk,
    unless the supervisor has planned to delete that file. *)
Theorem make_checkpoint_spares_other_files
    (fuel : nat) (w : World) (q : string) :
  (forall root, found_root w = Some root ->
                q <> signal_path (resolved_root w root)) ->
  (forall d, (d, q) ∉ supervisor w) ->
  files (make_checkpoint fuel w).1.2 !! q = files w !! q /\
  disk (make_checkpoint fuel w).1.2 !! q = disk w !! q.
Proof.
  intros Hne Hsup.
  destruct (environ w !! DVC_CHECKPOINT) as [v|] eqn:Hflag.
  - rewrite (make_checkpoint_supervised _ _ v) by assumption.
    destruct (found_root w) as [root|]; [|done]. cbn zeta.
    set (p := signal_path _).
    assert (Hspares : spares q (write_signal p ;;; poll fuel p)).
    { apply spares_bind; [apply spares_write_signal; by apply Hne|].
      intros _. apply spares_poll. }
    destruct (Hspares w Hsup) as (Hf & Hd & _).
    destruct ((write_signal p ;;; poll fuel p) w) as [[o w'] t].
    by split.
  - unfold make_checkpoint, getenv, bind, get_world, ret. cbn.
    rewrite Hflag. done.
Qed.


End FootprintFacts.

Lemma make_checkpoint_io_failure_witness :
  environ fsync_fails !! "DVC_CHECKPOINT" = Some "1" /\
  found_root fsync_fails = Some "/repo" /\
  io_fault fsync_fails = Some OpFsync /\
  let p := "/repo/.dvc/tmp/DVC_CHECKPOINT" in
  let '(o, w', t) := @make_checkpoint dvc_imports 3 fsync_fails in
  o = Raised IOError /\
  t = EFindRoot :: failed_trace p OpFsync /\
  clock w' = clock fsync_fails /\
  disk w' = disk fsync_fails /\
  (OpFsync = OpOpen -> files w' = files fsync_fails) /\
  (OpFsync <> OpOpen -> files w' !! p = Some "" /\ buffers w' !! p = None).
Proof.
  split; [reflexivity|]. split; [reflexivity|]. split; [reflexivity|].
  apply (@make_checkpoint_io_failure dvc_imports 3 fsync_fails "1" "/repo"
           OpFsync); reflexivity.
Defined.

Lemma make_checkpoint_returns_after_deletion_witness :
  environ supervised_with_params !! "DVC_CHECKPOINT" = Some "1" /\
  (@make_checkpoint dvc_imports 10 supervised_with_params).1.1
    = Returned tt /\
  exists root d,
    let p := @signal_path dvc_imports
               (@resolved_root dvc_imports supervised_with_params root) in
    found_root supervised_with_params = Some root /\
    (d, p) ∈ supervisor supervised_with_params /\
    (clock supervised_with_params < d)%N /\
    (d <= clock (@make_checkpoint dvc_imports 10
                   supervised_with_params).1.2)%N /\
    files (@make_checkpoint dvc_imports 10 supervised_with_params).1.2 !! p
      = None.
Proof.
  split; [reflexivity|]. split; [reflexivity|].
  apply (@make_checkpoint_returns_after_deletion dvc_imports 10
           supervised_with_params "1"); reflexivity.
Defined.

Lemma make_checkpoint_spares_other_files_witness :
  let w' := (@make_checkpoint dvc_imports 10 supervised_with_params).1.2 in
  files w' !! "/repo/params.yaml" = Some "lr: 0.1" /\
  disk w' !! "/repo/params.yaml" = Some "lr: 0.1".
Proof.
  apply (@make_checkpoint_spares_other_files dvc_imports 10
           supervised_with_params "/repo/params.yaml").
  - intros root [= <-]. vm_compute. discriminate.
  - intros d Hin. apply list_elem_of_singleton in Hin. discriminate.
Defined.


(** * The path of the signal file *)

Section PathFacts.
Context `{Imports}.

Lemma append_assoc (a b c : string) : (a +:+ b) +:+ c = a +:+ (b +:+ c).
Proof.
  induction a as [|x a IH]; [reflexivity|].
  change (String x ((a +:+ b) +:+ c) = String x (a +:+ (b +:+ c))).
  by rewrite IH.
Qed.

Lemma append_not_empty (a b : string) : b <> "" -> a +:+ b <> "".
Proof. intros Hb. destruct a as [|x a]; [exact Hb | discriminate]. Qed.

Lemma endswith_sep_cons (x : ascii) (s : string) :
  s <> "" -> Posix.endswith_sep (String x s) = Posix.endswith_sep s.
Proof. intros Hs. destruct s as [|y s]; [done | reflexivity]. Qed.

Lemma endswith_sep_append (a b : string) :
  b <> "" -> Posix.endswith_sep (a +:+ b) = Posix.endswith_sep b.
Proof.
  intros Hb. induction a as [|x a IH]; [reflexivity|].
  change (Posix.endswith_sep (String x (a +:+ b)) = Posix.endswith_sep b).
  rewrite endswith_sep_cons by (by apply append_not_empty). exact IH.
Qed.

(** A step of the join with a relative component. *)
Lemma join_step_relative (path b : string) :
  Posix.startswith "/" b = false ->
  Posix.join_step path b =
  (if String.eqb path "" || Posix.endswith_sep path then path
   else path +:+ "/") +:+ b.
Proof.
  intros Hb. unfold Posix.join_step. rewrite Hb.
  destruct (String.eqb path "" || Posix.endswith_sep path); [reflexivity|].
  by rewrite append_assoc.
Qed.

(** A step of the join after a path that does not end with a separator. *)
Lemma join_step_after (path b : string) :
  path <> "" -> Posix.endswith_sep path = false ->
  Posix.startswith "/" b = false ->
  Posix.join_step path b = path +:+ "/" +:+ b.
Proof.
  intros Hpath Hend Hb. unfold Posix.join_step. rewrite Hb, Hend.
  apply String.eqb_neq in Hpath. by rewrite Hpath.
Qed.

(** X5. With a marker directory name and a signal file name that are
    relative, the former not empty and not ending with a separator, the
    signal file is [DVC_DIR/tmp/SIGNAL_FILE] under the root directory: a
    separator is put after the root unless the root is empty or already
    ends with one, so that a root and the same root followed by a slash
    name the same signal file, and an empty root gives a path relative to
    the working directory. *)
Theorem signal_path_under_root (root_dir : string) :
  Posix.startswith "/" DVC_DIR = false ->
  DVC_DIR <> "" ->
  Posix.endswith_sep DVC_DIR = false ->
  Posix.startswith "/" SIGNAL_FILE = false ->
  signal_path root_dir =
  (if String.eqb root_dir "" || Posix.endswith_sep root_dir then root_dir
   else root_dir +:+ "/") +:+ DVC_DIR +:+ "/tmp/" +:+ SIGNAL_FILE.
Proof.
  intros Hrel Hne Hend Hfile. unfold signal_path, Posix.join. cbn [foldl].
  rewrite (join_step_relative root_dir) by assumption.
  set (pre := if String.eqb root_dir "" || Posix.endswith_sep root_dir
              then root_dir else root_dir +:+ "/").
  rewrite (join_step_after (pre +:+ DVC_DIR) "tmp");
    [| by apply append_not_empty
     | by rewrite endswith_sep_append
     | reflexivity ].
  rewrite join_step_after;
    [| by apply append_not_empty
     | by rewrite endswith_sep_append
     | assumption ].
  by rewrite !append_assoc.
Qed.

End PathFacts.

Lemma signal_path_under_root_witness :
  @signal_path dvc_imports "/repo/" = "/repo/.dvc/tmp/DVC_CHECKPOINT" /\
  @signal_path dvc_imports "/repo" = "/repo/.dvc/tmp/DVC_CHECKPOINT" /\
  @signal_path dvc_imports "" = ".dvc/tmp/DVC_CHECKPOINT".
Proof.
  split; [|split];
    (eapply eq_trans;
     [ apply (@signal_path_under_root dvc_imports);
       [reflexivity | discriminate | reflexivity | reflexivity]
     | reflexivity ]).
Defined.

(** * Further properties of [_postprocess] *)

Import Table.

Section TableMoreFacts.

(** X6. After [_postprocess] no cell of the table holds a rich text: each
    is a float, a plain string, or the value of another type it was. *)
Theorem postprocess_leaves_no_text (exp_rows : list ref) (h : heap)
    (i : nat) (k : string) (v : value) :
  cell (_postprocess exp_rows h) i k = Some v -> is_text v = false.
Proof.
  rewrite cell_postprocess.
  destruct (cell (exp_rows, h) i k) as [v0|]; [|discriminate].
  intros [= <-]. apply normalize_spec_not_text.
Qed.

(** X7. [_postprocess] mutates only the dictionaries its argument lists:
    any other dictionary of the heap, rich texts included, is untouched,
    and no dictionary is created. *)
Theorem postprocess_spares_unlisted (exp_rows : list ref) (h : heap)
    (r : ref) :
  r ∉ exp_rows -> (_postprocess exp_rows h).2 !! r = h !! r.
Proof.
  intros Hout. unfold _postprocess. cbn [snd].
  by rewrite postprocess_heap_lookup, decide_False.
Qed.

Lemma fmap_normalize_plain (row : dict) :
  (forall k v, row !! k = Some v -> is_text v = false) ->
  normalize_spec <$> row = row.
Proof.
  intros Hplain. apply map_eq. intros k. rewrite lookup_fmap.
  destruct (row !! k) as [v|] eqn:Hk; [|reflexivity].
  specialize (Hplain k v Hk). by destruct v.
Qed.

(** X8. On a table without rich text, [_postprocess] changes nothing at
    all: numeric-looking plain strings stay strings. *)
Theorem postprocess_plain_table (exp_rows : list ref) (h : heap) :
  (forall r row k v, r ∈ exp_rows -> h !! r = Some row ->
                     row !! k = Some v -> is_text v = false) ->
  _postprocess exp_rows h = (exp_rows, h).
Proof.
  intros Hplain. unfold _postprocess. f_equal. apply map_eq. intros r.
  rewrite postprocess_heap_lookup.
  destruct (decide (r ∈ exp_rows)) as [Hin|]; [|reflexivity].
  destruct (h !! r) as [row|] eqn:Hr; [|reflexivity].
  cbn. rewrite postprocess_row_fmap, fmap_normalize_plain; [reflexivity|].
  intros k v. by apply (Hplain r).
Qed.

(** X9. The heap [_postprocess] leaves depends on which dictionaries are
    listed, not on their order nor on how often each one is listed. *)
Theorem postprocess_order_irrelevant (rows1 rows2 : list ref) (h : heap) :
  (forall r, r ∈ rows1 <-> r ∈ rows2) ->
  (_postprocess rows1 h).2 = (_postprocess rows2 h).2.
Proof.
  intros Hsame. unfold _postprocess. cbn [snd]. apply map_eq. intros r.
  rewrite !postprocess_heap_lookup.
  destruct (decide (r ∈ rows1)) as [Hin|Hout].
  - by rewrite decide_True by (by apply Hsame).
  - by rewrite decide_False by (by rewrite <- Hsame).
Qed.

End TableMoreFacts.

Lemma postprocess_leaves_no_text_witness :
  cell (_postprocess sample_rows sample_heap) 0 "a"
    = Some (VFloat float_0_825) /\
  is_text (VFloat float_0_825) = false.
Proof.
  split; [vm_compute; reflexivity|].
  apply (postprocess_leaves_no_text sample_rows sample_heap 0 "a").
  vm_compute. reflexivity.
Defined.

Lemma postprocess_spares_unlisted_witness :
  (0 ∉ [1; 1]) /\
  (_postprocess [1; 1] sample_heap).2 !! 0 = sample_heap !! 0.
Proof.
  assert (Hout : 0 ∉ [1; 1]).
  { intros Hin. apply list_elem_of_In in Hin. cbn in Hin. lia. }
  split; [exact Hout|].
  apply (postprocess_spares_unlisted [1; 1] sample_heap 0 Hout).
Defined.

Lemma postprocess_order_irrelevant_witness :
  (_postprocess [0; 1; 1] sample_heap).2
  = (_postprocess [1; 0] sample_heap).2.
Proof.
  apply (postprocess_order_irrelevant [0; 1; 1] [1; 0] sample_heap).
  intros r. rewrite !list_elem_of_In. cbn. tauto.
Defined.

Lemma postprocess_plain_table_witness :
  _postprocess [0] {[ 0 := {[ "acc" := VStr "0.825" ]} ]}
  = ([0], {[ 0 := {[ "acc" := VStr "0.825" ]} ]}).
Proof.
  apply (postprocess_plain_table [0] {[ 0 := {[ "acc" := VStr "0.825" ]} ]}).
  intros r row k v Hr Hrow Hk.
  apply list_elem_of_singleton in Hr. subst r.
  rewrite lookup_singleton_eq in Hrow. injection Hrow as <-.
  apply lookup_singleton_Some in Hk as [_ <-]. reflexivity.
Defined.

(** * Properties of [exp_show] *)

Import ExpSave ExpShow.

Section ExpShowFacts.
Local Open Scope save_scope.
Context {experiments_t tabular : Type}.
Variable Repo_open : option string -> M (manager unit).
Variable experiments_show : show_options -> M experiments_t.
Variable tabulate : experiments_t -> value -> tabular.
Variable as_dict : tabular -> list dict.

Lemma omap_lookup_seq {A B} (f : A -> B) (l : list A) :
  omap (fun r => f <$> l !! r) (seq 0 (length l)) = f <$> l.
Proof.
  induction l as [|x l IH] using rev_ind; [reflexivity|].
  rewrite length_app, Nat.add_1_r, seq_S, omap_app, fmap_app. cbn [plus].
  f_equal.
  - rewrite <- IH. apply list_omap_ext, Forall_Forall2_diag, Forall_forall.
    intros r Hr%elem_of_seq. by rewrite lookup_app_l by lia.
  - cbn. by rewrite list_lookup_middle.
Qed.

(** Rows read back after [_postprocess] has run over new dictionaries. *)
Lemma read_postprocess_fresh (rows : list dict) :
  read (_postprocess (fresh rows).1 (fresh rows).2) = normalize_row <$> rows.
Proof.
  unfold read, fresh, _postprocess. cbn [fst snd].
  rewrite <- (omap_lookup_seq normalize_row rows).
  apply list_omap_ext, Forall_Forall2_diag, Forall_forall.
  intros r Hr. rewrite postprocess_heap_lookup, decide_True by assumption.
  rewrite lookup_map_seq_0.
  match goal with |- _ <$> ?o = _ => destruct o as [row|] end;
    [|reflexivity].
  cbn. by rewrite postprocess_row_fmap.
Qed.

Lemma with_returns {V A} (ctor : M (manager V)) (body : V -> M A)
    s mgr s0 t0 v s1 t1 a s2 t2 b s3 t3 :
  ctor s = (inr mgr, s0, t0) ->
  enter mgr s0 = (inr v, s1, t1) ->
  body v s1 = (inr a, s2, t2) ->
  exit mgr None s2 = (inr b, s3, t3) ->
  with_ ctor body s = (inr (Some a), s3, t0 ++ t1 ++ t2 ++ t3).
Proof.
  intros Hctor Henter Hbody Hexit. unfold with_, bind, try_.
  rewrite Hctor, Henter, Hbody, Hexit. cbn. by rewrite ?app_nil_r.
Qed.

Lemma with_raises {V A} (ctor : M (manager V)) (body : V -> M A)
    s mgr s0 t0 v s1 t1 e s2 t2 (b : bool) s3 t3 :
  ctor s = (inr mgr, s0, t0) ->
  enter mgr s0 = (inr v, s1, t1) ->
  body v s1 = (inl e, s2, t2) ->
  exit mgr (Some e) s2 = (inr b, s3, t3) ->
  with_ ctor body s =
  (if b then inr None else inl e, s3, t0 ++ t1 ++ t2 ++ t3).
Proof.
  intros Hctor Henter Hbody Hexit. unfold with_, bind, try_.
  rewrite Hctor, Henter, Hbody, Hexit. destruct b; cbn; by rewrite ?app_nil_r.
Qed.

(** X10. When the repository opens and the show of the experiments
    subsystem returns, [exp_show] returns one dictionary for each row of
    [td.as_dict()], in the same order, each the row with the
    normalisation rule applied to every cell. The options reach the show
    unchanged, [sha] as [sha_only]; the table is built with the fill value
    [None]; the context is left, with no exception, after the show. *)
Theorem exp_show_returns (repo : option string) (revs : option revs_arg)
    (num : Z) (hide_queued hide_failed sha param_deps force : bool)
    s mgr s0 t0 s1 t1 experiments s2 t2 b s3 t3 :
  Repo_open repo s = (inr mgr, s0, t0) ->
  enter mgr s0 = (inr tt, s1, t1) ->
  experiments_show
    (mkShowOptions hide_queued hide_failed revs num sha param_deps force) s1
    = (inr experiments, s2, t2) ->
  exit mgr None s2 = (inr b, s3, t3) ->
  exp_show Repo_open experiments_show tabulate as_dict
           repo revs num hide_queued hide_failed sha param_deps force s =
  (inr (Some (normalize_row <$> as_dict (tabulate experiments VNone))),
   s3, t0 ++ t1 ++ t2 ++ t3).
Proof.
  intros Hopen Henter Hshow Hexit. unfold exp_show.
  erewrite with_returns; [| exact Hopen | exact Henter | | exact Hexit].
  - reflexivity.
  - unfold bind. rewrite Hshow. cbn zeta. unfold ret.
    by rewrite read_postprocess_fresh, app_nil_r.
Qed.

(** X11. When the show of the experiments subsystem fails, [exp_show]
    tabulates nothing: the context's exit is run with the failure, which
    is then raised unchanged unless the exit swallowed it, in which case
    [exp_show] returns [None]. *)
Theorem exp_show_show_fails (repo : option string) (revs : option revs_arg)
    (num : Z) (hide_queued hide_failed sha param_deps force : bool)
    s mgr s0 t0 s1 t1 e s2 t2 (b : bool) s3 t3 :
  Repo_open repo s = (inr mgr, s0, t0) ->
  enter mgr s0 = (inr tt, s1, t1) ->
  experiments_show
    (mkShowOptions hide_queued hide_failed revs num sha param_deps force) s1
    = (inl e, s2, t2) ->
  exit mgr (Some e) s2 = (inr b, s3, t3) ->
  exp_show Repo_open experiments_show tabulate as_dict
           repo revs num hide_queued hide_failed sha param_deps force s =
  (if b then inr None else inl e, s3, t0 ++ t1 ++ t2 ++ t3).
Proof.
  intros Hopen Henter Hshow Hexit. unfold exp_show.
  erewrite with_raises; [| exact Hopen | exact Henter | | exact Hexit].
  - reflexivity.
  - unfold bind. by rewrite Hshow.
Qed.

End ExpShowFacts.

Lemma exp_show_returns_witness :
  sample_exp_show None sample_store =
  (inr (Some (normalize_row <$> sample_records)), sample_store,
   [EAcquire; ERelease]).
Proof.
  unfold sample_exp_show.
  eapply eq_trans; [eapply exp_show_returns; reflexivity | reflexivity].
Defined.

Lemma exp_show_show_fails_witness :
  sample_exp_show (Some (RevsOne "ambiguous")) sample_store =
  (inl (RepositoryError "ambiguous"), sample_store, [EAcquire; ERelease]).
Proof.
  unfold sample_exp_show.
  eapply eq_trans; [eapply exp_show_show_fails; reflexivity | reflexivity].
Defined.

(** * Padded numbers *)

Import PyFloat Padding.

Section FloatFacts.

Lemma append_cons (c : ascii) (s r : string) :
  String c s +:+ r = String c (s +:+ r).
Proof. reflexivity. Qed.

Lemma append_empty_r (s : string) : s +:+ "" = s.
Proof.
  induction s as [|c s IH]; [reflexivity|].
  by rewrite append_cons, IH.
Qed.

Lemma is_space_not_digit (c : ascii) : is_space c = true -> is_digit c = false.
Proof.
  unfold is_space, is_digit. cbn zeta. intros Hc.
  apply andb_false_iff.
  apply orb_true_iff in Hc as [Hc%N.eqb_eq|Hc].
  - left. apply N.leb_gt. lia.
  - apply andb_true_iff in Hc as [Hl%N.leb_le Hh%N.leb_le].
    left. apply N.leb_gt. lia.
Qed.

Lemma is_space_not_underscore (c : ascii) :
  is_space c = true -> Ascii.eqb c underscore = false.
Proof.
  intros Hc. destruct (Ascii.eqb c underscore) eqn:Hu; [|reflexivity].
  apply Ascii.eqb_eq in Hu. subst c. discriminate.
Qed.

Lemma is_space_to_ascii (c : ascii) : is_space c = true -> to_ascii_space c = c.
Proof.
  unfold is_space, to_ascii_space. cbn zeta. intros Hc.
  assert (Hlow : (N_of_ascii c <= 32)%N).
  { apply orb_true_iff in Hc as [Hc%N.eqb_eq|Hc]; [lia|].
    apply andb_true_iff in Hc as [_ Hh%N.leb_le]. lia. }
  assert (H133 : (N_of_ascii c =? 133)%N = false) by (apply N.eqb_neq; lia).
  assert (H160 : (N_of_ascii c =? 160)%N = false) by (apply N.eqb_neq; lia).
  by rewrite H133, H160.
Qed.

Lemma transform_append (a b : string) :
  transform (a +:+ b) = transform a +:+ transform b.
Proof.
  induction a as [|c a IH]; [reflexivity|].
  rewrite append_cons. cbn [transform]. by rewrite IH, append_cons.
Qed.

Lemma transform_all_space (l : string) :
  all_space l = true -> transform l = l.
Proof.
  induction l as [|c l IH]; [reflexivity|]. cbn [all_space transform].
  intros [Hc Hl]%andb_true_iff. by rewrite is_space_to_ascii, IH.
Qed.

Lemma inert_not_underscore (prev : option ascii) :
  inert prev = true -> bool_decide (prev = Some underscore) = false.
Proof.
  intros Hprev. apply bool_decide_eq_false_2. intros ->.
  cbn in Hprev. discriminate.
Qed.

Lemma inert_space (c : ascii) : is_space c = true -> inert (Some c) = true.
Proof.
  intros Hc. cbn [inert].
  by rewrite is_space_not_digit, is_space_not_underscore.
Qed.

Lemma drop_underscores_inert (prev : option ascii) (s : string) :
  inert prev = true -> drop_underscores prev s = drop_underscores None s.
Proof.
  intros Hprev. pose proof (inert_not_underscore prev Hprev) as Hnot.
  pose proof (inert_not_underscore None eq_refl) as Hnone.
  destruct s as [|c s]; cbn [drop_underscores]; rewrite Hnot, Hnone;
    [reflexivity|].
  destruct (Ascii.eqb c underscore); [|reflexivity].
  destruct prev as [d|]; [|reflexivity].
  cbn [inert] in Hprev. apply andb_true_iff in Hprev as [Hd _].
  apply negb_true_iff in Hd. by rewrite Hd.
Qed.

Lemma drop_underscores_space (prev : option ascii) (r : string) :
  all_space r = true ->
  drop_underscores prev r =
  if bool_decide (prev = Some underscore) then None else Some r.
Proof.
  revert prev. induction r as [|c r IH]; intros prev; [reflexivity|].
  cbn [all_space drop_underscores]. intros [Hc Hr]%andb_true_iff.
  rewrite is_space_not_underscore, is_space_not_digit by assumption.
  rewrite andb_true_r. destruct (bool_decide (prev = Some underscore));
    [reflexivity|].
  rewrite IH, inert_not_underscore by (assumption || by apply inert_space).
  reflexivity.
Qed.

Lemma drop_underscores_lpad (l s : string) :
  all_space l = true ->
  drop_underscores None (l +:+ s) =
  (fun x => l +:+ x) <$> drop_underscores None s.
Proof.
  induction l as [|c l IH].
  - intros _. change ("" +:+ s) with s.
    by destruct (drop_underscores None s).
  - cbn [all_space]. intros [Hc Hl]%andb_true_iff.
    rewrite append_cons. cbn [drop_underscores].
    rewrite is_space_not_underscore, (inert_not_underscore None) by done.
    cbn [andb]. rewrite drop_underscores_inert, IH
      by (assumption || by apply inert_space).
    by destruct (drop_underscores None s).
Qed.

Lemma drop_underscores_rpad (prev : option ascii) (s r : string) :
  all_space r = true ->
  drop_underscores prev (s +:+ r) =
  (fun x => x +:+ r) <$> drop_underscores prev s.
Proof.
  intros Hr. revert prev. induction s as [|c s IH]; intros prev.
  - change ("" +:+ r) with r. rewrite drop_underscores_space by assumption.
    cbn [drop_underscores]. by destruct (bool_decide _).
  - rewrite append_cons. cbn [drop_underscores].
    destruct (Ascii.eqb c underscore).
    + destruct prev as [d|]; [|reflexivity].
      destruct (is_digit d); [apply IH | reflexivity].
    + destruct (_ && _); [reflexivity|]. rewrite IH.
      by destruct (drop_underscores (Some c) s).
Qed.

Lemma lstrip_lpad (l y : string) :
  all_space l = true -> lstrip (l +:+ y) = lstrip y.
Proof.
  induction l as [|c l IH]; [reflexivity|]. cbn [all_space].
  intros [Hc Hl]%andb_true_iff. rewrite append_cons. cbn [lstrip].
  rewrite Hc. by apply IH.
Qed.

Lemma lstrip_all_space (r : string) : all_space r = true -> lstrip r = "".
Proof.
  intros Hr. rewrite <- (append_empty_r r). by rewrite lstrip_lpad.
Qed.

Lemma rstrip_all_space (r : string) : all_space r = true -> rstrip r = "".
Proof.
  induction r as [|c r IH]; [reflexivity|]. cbn [all_space rstrip].
  intros [Hc Hr]%andb_true_iff. by rewrite IH, Hc.
Qed.

Lemma rstrip_rpad (y r : string) :
  all_space r = true -> rstrip (y +:+ r) = rstrip y.
Proof.
  intros Hr. induction y as [|c y IH].
  - change ("" +:+ r) with r. by rewrite rstrip_all_space.
  - rewrite append_cons. cbn [rstrip]. by rewrite IH.
Qed.

Lemma strip_rpad (x r : string) :
  all_space r = true -> strip (x +:+ r) = strip x.
Proof.
  intros Hr. unfold strip. induction x as [|c x IH].
  - change ("" +:+ r) with r. by rewrite lstrip_all_space.
  - rewrite append_cons. cbn [lstrip]. destruct (is_space c); [exact IH|].
    rewrite <- append_cons. by apply rstrip_rpad.
Qed.

(** X12. White space around the plain string does not change what
    [float] makes of it: a rich text cell holding a padded number becomes
    the number the unpadded text stands for, and padding turns no other
    text into a number. *)
Theorem float_of_str_padding (l s r : string) :
  all_space l = true -> all_space r = true ->
  float_of_str (l +:+ s +:+ r) = float_of_str s.
Proof.
  intros Hl Hr. unfold float_of_str.
  rewrite !transform_append.
  rewrite (transform_all_space l), (transform_all_space r) by assumption.
  rewrite drop_underscores_lpad, drop_underscores_rpad by assumption.
  destruct (drop_underscores None (transform s)) as [s1|]; [|reflexivity].
  cbn [fmap option_fmap option_map mbind option_bind].
  unfold strip at 1. rewrite lstrip_lpad by assumption.
  fold (strip (s1 +:+ r)). by rewrite strip_rpad.
Qed.

End FloatFacts.

Lemma float_of_str_padding_witness :
  all_space "  " = true /\ all_space " " = true /\
  float_of_str ("  " +:+ "1.5" +:+ " ") = float_of_str "1.5".
Proof.
  split; [reflexivity|]. split; [reflexivity|].
  apply (float_of_str_padding "  " "1.5" " "); reflexivity.
Defined.
